(** * SummarizerPro: the client store, the Q&A and input sections, the API
  client and the chunker, embedded in Rocq.

  The front end keeps its state in one zustand store
  ([store/useAppStore.js]); React components read the store and call its
  actions.  Store actions are pure state transformers here; component
  handlers thread a world (store, component-local state, log of observable
  effects) through their statements in source order. *)

From Stdlib Require Import ZArith Floats.
From stdpp Require Import gmap strings list fin_maps.

Set Warnings "-inexact-float".

Local Open Scope string_scope.
Local Open Scope list_scope.
Local Open Scope Z_scope.

(** ** JavaScript values *)

Module JS.

(** A JavaScript string is a sequence of UTF-16 code units. *)
Abbreviation jsstring := (list N).

(** A source literal (ASCII text) as a JavaScript string. *)
Definition lit (s : string) : jsstring :=
  map Ascii.N_of_ascii (String.list_ascii_of_string s).

(** ECMAScript LineTerminator code points. *)
Definition is_line_terminator (c : N) : bool :=
  ((c =? 10) || (c =? 13) || (c =? 8232) || (c =? 8233))%N.

(** ECMAScript WhiteSpace code points (TAB, VT, FF, ZWNBSP and the
    Unicode space separators). *)
Definition is_white_space (c : N) : bool :=
  ((c =? 9) || (c =? 11) || (c =? 12) || (c =? 32) || (c =? 160)
   || (c =? 5760) || ((8192 <=? c) && (c <=? 8202))
   || (c =? 8239) || (c =? 8287) || (c =? 12288) || (c =? 65279))%N.

(** What [String.prototype.trim] strips. *)
Definition strippable (c : N) : bool :=
  is_white_space c || is_line_terminator c.

Fixpoint trimStart (s : jsstring) : jsstring :=
  match s with
  | c :: s' => if strippable c then trimStart s' else s
  | [] => []
  end.

Definition trimEnd (s : jsstring) : jsstring := rev (trimStart (rev s)).

Definition trim (s : jsstring) : jsstring := trimEnd (trimStart s).

(** The values that flow through the store's settings object and the
    request bodies.  Numbers that the code only stores and forwards
    (lengths, sizes) are integers. *)
Inductive value :=
  | VUndefined
  | VNull
  | VBool (b : bool)
  | VNum (z : Z)
  | VStr (s : jsstring).

(** ToBoolean. *)
Definition truthy (v : value) : bool :=
  match v with
  | VUndefined | VNull => false
  | VBool b => b
  | VNum z => negb (z =? 0)
  | VStr s => negb (length s =? 0)%nat
  end.

(** [a || b]. *)
Definition or_else (a b : value) : value := if truthy a then a else b.

(** Truthiness of a string: [!s] is true exactly for the empty string. *)
Definition str_truthy (s : jsstring) : bool := negb (length s =? 0)%nat.

(** Property read on an object used as a record: a missing key reads as
    [undefined]. *)
Definition get (o : gmap string value) (k : string) : value :=
  default VUndefined (o !! k).

(** Object spread [{...a, ...b}]: the keys of both, [b] winning. *)
Definition spread2 (a b : gmap string value) : gmap string value := b ∪ a.

End JS.

Import JS.

(** ** The application store ([store/useAppStore.js]) *)

Module Store.

Inductive Step := StepInput | StepProcessing | StepResults.

(** [activeTab] is a string; the four tab ids are the ones every [switch]
    names, any other value takes the [default] branch. *)
Inductive Tab :=
  | TabText
  | TabFiles
  | TabUrl
  | TabYoutube
  | TabOther (name : string).

Record File := mkFile { file_name : jsstring; file_size : Z }.

Record InputContent := mkInputContent {
  text : jsstring;
  files : list File;
  url : jsstring;
  youtubeUrl : jsstring
  }.

Record SummaryMetadata := mkSummaryMetadata {
  original_content : option jsstring;
  compression_ratio : option Z;
  reading_time : option Z
  }.

Record SummaryResult := mkSummaryResult {
  summary : jsstring;
  metadata : option SummaryMetadata
  }.

Record QAInteraction := mkQAInteraction {
  id : Z;
  question : jsstring;
  answer : jsstring;
  confidence : float;
  supportingText : option jsstring;
  timestamp : jsstring
  }.

Record AppStore := mkAppStore {
  isLoading : bool;
  currentStep : Step;
  activeTab : Tab;
  inputContent : InputContent;
  summaryResults : option SummaryResult;
  summaryHistory : list SummaryResult;
  qaHistory : list QAInteraction;
  currentQuestion : jsstring;
  summarySettings : gmap string value
  }.

Definition initialSettings : gmap string value :=
  <["maxLength" := VNum 1200]>
  (<["minLength" := VNum 300]>
  (<["summaryType" := VStr (lit "comprehensive")]>
  (<["summaryStyle" := VStr (lit "comprehensive")]>
  (<["customPrompt" := VStr []]>
  (<["language" := VStr (lit "en")]> ∅))))).

Definition initialState : AppStore :=
  {| isLoading := false;
     currentStep := StepInput;
     activeTab := TabText;
     inputContent := mkInputContent [] [] [] [];
     summaryResults := None;
     summaryHistory := [];
     qaHistory := [];
     currentQuestion := [];
     summarySettings := initialSettings |}.

(** The [(type, content)] pairs the input components pass to
    [updateInputContent]: one of the four keys with a value of its kind. *)
Inductive InputUpdate :=
| SetText (content : jsstring)
| SetFiles (content : list File)
| SetUrl (content : jsstring)
| SetYoutubeUrl (content : jsstring).

(** What the two clock reads of [addQAInteraction] return: [Date.now()]
    and [new Date().toISOString()]. *)
Record Clock := mkClock { date_now : Z; iso_now : jsstring }.

Section Actions.
Variable s : AppStore.

Definition setLoading (loading : bool) : AppStore :=
    {| isLoading := loading;
       currentStep := currentStep s;
       activeTab := activeTab s;
       inputContent := inputContent s;
       summaryResults := summaryResults s;
       summaryHistory := summaryHistory s;
       qaHistory := qaHistory s;
       currentQuestion := currentQuestion s;
       summarySettings := summarySettings s |}.

Definition setCurrentStep (step : Step) : AppStore :=
    {| isLoading := isLoading s;
       currentStep := step;
       activeTab := activeTab s;
       inputContent := inputContent s;
       summaryResults := summaryResults s;
       summaryHistory := summaryHistory s;
       qaHistory := qaHistory s;
       currentQuestion := currentQuestion s;
       summarySettings := summarySettings s |}.

Definition setActiveTab (tab : Tab) : AppStore :=
    {| isLoading := isLoading s;
       currentStep := currentStep s;
       activeTab := tab;
       inputContent := inputContent s;
       summaryResults := summaryResults s;
       summaryHistory := summaryHistory s;
       qaHistory := qaHistory s;
       currentQuestion := currentQuestion s;
       summarySettings := summarySettings s |}.

(** [summaryHistory: [results, ...state.summaryHistory.slice(0, 9)]] *)
Definition setSummaryResults (results : SummaryResult) : AppStore :=
    {| isLoading := isLoading s;
       currentStep := currentStep s;
       activeTab := activeTab s;
       inputContent := inputContent s;
       summaryResults := Some results;
       summaryHistory := results :: take 9 (summaryHistory s);
       qaHistory := qaHistory s;
       currentQuestion := currentQuestion s;
       summarySettings := summarySettings s |}.

Definition withInputContent (ic : InputContent) : AppStore :=
  {| isLoading := isLoading s;
     currentStep := currentStep s;
     activeTab := activeTab s;
     inputContent := ic;
     summaryResults := summaryResults s;
     summaryHistory := summaryHistory s;
     qaHistory := qaHistory s;
     currentQuestion := currentQuestion s;
     summarySettings := summarySettings s |}.

(** [updateInputContent(type, content)] sets the key [type] of
    [inputContent]. *)
Definition updateInputContent (u : InputUpdate) : AppStore :=
  let ic := inputContent s in
  withInputContent
    match u with
    | SetText content => mkInputContent content (files ic) (url ic) (youtubeUrl ic)
    | SetFiles content => mkInputContent (text ic) content (url ic) (youtubeUrl ic)
    | SetUrl content => mkInputContent (text ic) (files ic) content (youtubeUrl ic)
    | SetYoutubeUrl content => mkInputContent (text ic) (files ic) (url ic) content
    end.

Definition clearInputContent : AppStore :=
  withInputContent (mkInputContent [] [] [] []).

Definition clearSummaryResults : AppStore :=
    {| isLoading := isLoading s;
       currentStep := currentStep s;
       activeTab := activeTab s;
       inputContent := inputContent s;
       summaryResults := None;
       summaryHistory := summaryHistory s;
       qaHistory := qaHistory s;
       currentQuestion := currentQuestion s;
       summarySettings := summarySettings s |}.

(** The entry [addQAInteraction] builds. *)
Definition newInteraction (clk : Clock) (q a : jsstring) (c : float)
      (sup : option jsstring) : QAInteraction :=
    {| id := date_now clk;
       question := q;
       answer := a;
       confidence := c;
       supportingText := sup;
       timestamp := iso_now clk |}.

(** [qaHistory: [{...}, ...state.qaHistory]] *)
Definition addQAInteraction (clk : Clock) (q a : jsstring) (c : float)
      (sup : option jsstring) : AppStore :=
    {| isLoading := isLoading s;
       currentStep := currentStep s;
       activeTab := activeTab s;
       inputContent := inputContent s;
       summaryResults := summaryResults s;
       summaryHistory := summaryHistory s;
       qaHistory := newInteraction clk q a c sup :: qaHistory s;
       currentQuestion := currentQuestion s;
       summarySettings := summarySettings s |}.

Definition clearQAHistory : AppStore :=
    {| isLoading := isLoading s;
       currentStep := currentStep s;
       activeTab := activeTab s;
       inputContent := inputContent s;
       summaryResults := summaryResults s;
       summaryHistory := summaryHistory s;
       qaHistory := [];
       currentQuestion := currentQuestion s;
       summarySettings := summarySettings s |}.

Definition setCurrentQuestion (q : jsstring) : AppStore :=
    {| isLoading := isLoading s;
       currentStep := currentStep s;
       activeTab := activeTab s;
       inputContent := inputContent s;
       summaryResults := summaryResults s;
       summaryHistory := summaryHistory s;
       qaHistory := qaHistory s;
       currentQuestion := q;
       summarySettings := summarySettings s |}.

(** [summarySettings: {...state.summarySettings, ...settings}] *)
Definition updateSummarySettings (settings : gmap string value) : AppStore :=
    {| isLoading := isLoading s;
       currentStep := currentStep s;
       activeTab := activeTab s;
       inputContent := inputContent s;
       summaryResults := summaryResults s;
       summaryHistory := summaryHistory s;
       qaHistory := qaHistory s;
       currentQuestion := currentQuestion s;
       summarySettings := spread2 (summarySettings s) settings |}.

End Actions.

(** *** Computed getters *)

(** The one [.] of the YouTube pattern: any code unit but a line
    terminator; [.+] at the end of an unanchored-at-the-end pattern matches
    as soon as one such unit is there. *)
Definition dot_plus (s : jsstring) : bool :=
  match s with
  | c :: _ => negb (is_line_terminator c)
  | [] => false
  end.

Fixpoint strip_prefix (p s : jsstring) : option jsstring :=
  match p, s with
  | [], _ => Some s
  | c :: p', d :: s' => if (c =? d)%N then strip_prefix p' s' else None
  | _ :: _, [] => None
  end.

(** One group of alternatives followed by the rest of the pattern: the
    match succeeds when some alternative and the rest match (backtracking
    over the alternatives). *)
Definition alternatives (alts : list jsstring) (rest : jsstring → bool)
    (s : jsstring) : bool :=
  existsb (λ p, match strip_prefix p s with
                | Some s' => rest s'
                | None => false
                end) alts.

(** [/^(https?:\/\/)?(www\.)?(youtube\.com|youtu\.be)\/.+/.test(url)] *)
Definition isYouTubeUrl (u : jsstring) : bool :=
  alternatives [lit "https://"; lit "http://"; []]
    (alternatives [lit "www."; []]
      (alternatives [lit "youtube.com"; lit "youtu.be"]
        (alternatives [lit "/"] dot_plus))) u.

Section Getters.
(** [new URL(string)] of the platform: whether it parses (does not throw). *)
Variable url_parses : jsstring → bool.
Variable s : AppStore.

Definition isValidUrl (str : jsstring) : bool := url_parses str.

(** The value [getActiveInputContent] returns is a string or the file
    list, by tab. *)
Definition getActiveInputContent : jsstring + list File :=
  match activeTab s with
  | TabText => inl (text (inputContent s))
  | TabFiles => inr (files (inputContent s))
  | TabUrl => inl (url (inputContent s))
  | TabYoutube => inl (youtubeUrl (inputContent s))
  | TabOther _ => inl []
  end.

Definition hasValidInput : bool :=
  match activeTab s with
  | TabText => (10 <? length (trim (text (inputContent s))))%nat
  | TabFiles => (0 <? length (files (inputContent s)))%nat
  | TabUrl =>
      (0 <? length (trim (url (inputContent s))))%nat
      && isValidUrl (url (inputContent s))
  | TabYoutube =>
      (0 <? length (trim (youtubeUrl (inputContent s))))%nat
      && isYouTubeUrl (youtubeUrl (inputContent s))
  | TabOther _ => false
  end.

(** [summaryResults.metadata?.original_content] *)
Definition original_content_of (r : SummaryResult) : option jsstring :=
  match metadata r with
  | Some m => original_content m
  | None => None
  end.

Definition getQAContext : jsstring :=
  match summaryResults s with
  | None => []
  | Some r =>
      match original_content_of r with
      | Some oc =>
          if str_truthy oc
          then oc ++ ([10; 10]%N ++ lit "Summary: ") ++ summary r
          else summary r
      | None => summary r
      end
  end.

End Getters.

End Store.

Import Store.

(** ** The API client ([api/client.js]) *)

Module Api.

Inductive Method := GET | POST.

(** The fields of an axios configuration that the client sets. *)
Record Config := mkConfig {
  timeout : Z;
  contentType : string;
  responseType : option string
}.

(** [axios.create({ ..., timeout: 600000, headers: {'Content-Type':
    'application/json'} })] *)
Definition apiClient : Config :=
  {| timeout := 600000;
     contentType := "application/json";
     responseType := None |}.

(** The per-call configuration a method passes to [apiClient.post]/[get]. *)
Record CallConfig := mkCallConfig {
  cc_timeout : option Z;
  cc_contentType : option string;
  cc_responseType : option string
}.

Definition noOverride : CallConfig := mkCallConfig None None None.

(** axios merges the call's configuration over the instance defaults. *)
Definition mergeConfig (d : Config) (c : CallConfig) : Config :=
  {| timeout := default (timeout d) (cc_timeout c);
     contentType := default (contentType d) (cc_contentType c);
     responseType :=
       match cc_responseType c with
       | Some r => Some r
       | None => responseType d
       end |}.

(** The methods of [summarizeAPI], [qaAPI], [exportAPI] and
    [healthAPI.checkHealth]. *)
Inductive Endpoint :=
| SummarizeText | SummarizeDocument | SummarizeUrl | SummarizeYoutube
| SummarizeMultilingual
| AskQuestion | ConversationalQA | BatchQA | GetSuggestedQuestions
| ExportTxt | ExportDocx | ExportPdf | GenerateTTS | GetSupportedLanguages
| BatchExport
| CheckHealth.

Definition endpoint_method (e : Endpoint) : Method :=
  match e with
  | GetSuggestedQuestions | GetSupportedLanguages | CheckHealth => GET
  | _ => POST
  end.

Definition endpoint_path (e : Endpoint) : string :=
  match e with
  | SummarizeText => "/summarize/text"
  | SummarizeDocument => "/summarize/document"
  | SummarizeUrl => "/summarize/url"
  | SummarizeYoutube => "/summarize/youtube"
  | SummarizeMultilingual => "/summarize/multilingual"
  | AskQuestion => "/qa/ask"
  | ConversationalQA => "/qa/conversation"
  | BatchQA => "/qa/batch"
  | GetSuggestedQuestions => "/qa/suggested-questions"
  | ExportTxt => "/export/txt"
  | ExportDocx => "/export/docx"
  | ExportPdf => "/export/pdf"
  | GenerateTTS => "/tts/generate"
  | GetSupportedLanguages => "/tts/languages"
  | BatchExport => "/export/batch"
  | CheckHealth => "/health"
  end.

Definition endpoint_config (e : Endpoint) : CallConfig :=
  match e with
  | SummarizeDocument =>
      {| cc_timeout := Some 900000;
         cc_contentType := Some "multipart/form-data";
         cc_responseType := None |}
  | ExportTxt | ExportDocx | ExportPdf | GenerateTTS =>
      {| cc_timeout := None;
         cc_contentType := None;
         cc_responseType := Some "blob" |}
  | _ => noOverride
  end.

Inductive ApiGroup := GroupSummarize | GroupQA | GroupExport | GroupHealth.

Definition endpoint_group (e : Endpoint) : ApiGroup :=
  match e with
  | SummarizeText | SummarizeDocument | SummarizeUrl | SummarizeYoutube
  | SummarizeMultilingual => GroupSummarize
  | AskQuestion | ConversationalQA | BatchQA | GetSuggestedQuestions => GroupQA
  | ExportTxt | ExportDocx | ExportPdf | GenerateTTS | GetSupportedLanguages
  | BatchExport => GroupExport
  | CheckHealth => GroupHealth
  end.

Record HistoryItem := mkHistoryItem {
  h_question : jsstring;
  h_answer : jsstring
}.

(** What a call sends. *)
Inductive Body :=
| JsonBody (fields : list (string * value))
| FormBody (form_files : list File) (fields : list (string * value))
| ConversationBody (q context : jsstring)
    (conversation_history : list HistoryItem) (language : jsstring)
| ParamsBody (fields : list (string * value))
| NoBody.

Record Request := mkRequest {
  req_method : Method;
  req_path : string;
  req_config : Config;
  req_body : Body
}.

Definition request_of (e : Endpoint) (b : Body) : Request :=
  {| req_method := endpoint_method e;
     req_path := endpoint_path e;
     req_config := mergeConfig apiClient (endpoint_config e);
     req_body := b |}.

(** The body of an answer whose status is not 2xx, as the interceptor
    reads it: JSON [null], or any other value with its [detail] (undefined
    when it has none). *)
Inductive ErrorData :=
| NullData
| DataWith (detail : option jsstring).

#[global] Instance ErrorData_eq_dec : EqDecision ErrorData.
Proof. solve_decision. Defined.

(** The fields of a rejection's error that the interceptor and the
    handlers read: [error.response] (its status and data), [error.request]
    and [error.code]; an error that has none of them reads as undefined
    everywhere. *)
Record AxiosError := mkAxiosError {
  response : option (Z * ErrorData);
  request : bool;
  code : option string
}.

(** How a promise ends: fulfilled, rejected, or never settled. *)
Inductive Outcome (D : Type) :=
| Resolved (d : D)
| Rejected (e : AxiosError)
| Pending.
Arguments Resolved {D} d.
Arguments Rejected {D} e.
Arguments Pending {D}.

(** The other end of the wire, as far as the client can tell: an HTTP
    answer after some milliseconds, no connection, or no answer ever. *)
Inductive Server (D : Type) :=
| Answers (latency : Z) (status : Z) (data : D) (detail : ErrorData)
| Unreachable
| Silent.
Arguments Answers {D} latency status data detail.
Arguments Unreachable {D}.
Arguments Silent {D}.

Definition timeoutError : AxiosError :=
  {| response := None; request := true; code := Some "ECONNABORTED" |}.

Definition networkError : AxiosError :=
  {| response := None; request := true; code := Some "ERR_NETWORK" |}.

Definition statusError (status : Z) (detail : ErrorData) : AxiosError :=
  {| response := Some (status, detail);
     request := true;
     code := Some (if status <? 500 then "ERR_BAD_REQUEST"
                   else "ERR_BAD_RESPONSE") |}.

(** The axios transport (third-party library, described by its documented
    contract): with [timeout] = t > 0 the request is aborted with code
    ECONNABORTED once t milliseconds pass without a response; t = 0 means
    no timeout; a response with a status outside 2xx rejects. *)
Definition adapter {D} (cfg : Config) (srv : Server D) : Outcome D :=
  match srv with
  | Unreachable => Rejected networkError
  | Silent => if 0 <? timeout cfg then Rejected timeoutError else Pending
  | Answers latency status data detail =>
      if (0 <? timeout cfg) && (timeout cfg <=? latency)
      then Rejected timeoutError
      else if (200 <=? status) && (status <? 300)
           then Resolved data
           else Rejected (statusError status detail)
  end.

(** No response within [t] milliseconds. *)
Definition expires {D} (t : Z) (srv : Server D) : bool :=
  match srv with
  | Answers latency _ _ _ => t <=? latency
  | Unreachable => false
  | Silent => true
  end.

(** What the program does that an observer can see. *)
Inductive Event :=
| ToastError (msg : jsstring)
| ToastSuccess (msg : jsstring)
| ToastPlain (msg : jsstring)
| ConsoleError (label : jsstring)
| Sent (r : Request).

(** The [TypeError] that reading [data.detail] of a [null] body throws:
    it has no [response], no [request] and no [code]. *)
Definition typeError : AxiosError :=
  {| response := None; request := false; code := None |}.

(** The error branch of [apiClient.interceptors.response] up to its
    [return Promise.reject(error)]: the toast it shows, or [None] when it
    throws before showing one ([data.detail] on a [null] body, status
    400). *)
Definition interceptError (e : AxiosError) : option (list Event) :=
  match response e with
  | Some (status, data) =>
      if status =? 400 then
        match data with
        | NullData => None
        | DataWith detail =>
            Some [ToastError (match detail with
                              | Some d =>
                                  if str_truthy d then d
                                  else lit "Invalid request"
                              | None => lit "Invalid request"
                              end)]
        end
      else if status =? 404 then Some [ToastError (lit "Service not found")]
      else if status =? 422 then Some [ToastError (lit "Validation error")]
      else if status =? 500 then
        Some [ToastError (lit "Server error. Please try again later.")]
      else Some [ToastError (lit "An unexpected error occurred")]
  | None =>
      if request e then
        if bool_decide (code e = Some "ECONNABORTED") then
          Some [ToastError (lit "Request timeout. The operation is taking longer than expected. Please try again.")]
        else
          Some [ToastError (lit "Network error. Please check your connection and ensure the backend server is running.")]
      else Some [ToastError (lit "Request failed")]
  end.

(** The response interceptor: a response passes; an error is shown and
    rejected again, or, when the handler throws, what it threw is the
    rejection. *)
Definition interceptResponse {D} (o : Outcome D) : list Event * Outcome D :=
  match o with
  | Resolved d => ([], Resolved d)
  | Rejected e =>
      match interceptError e with
      | Some evs => (evs, Rejected e)
      | None => ([], Rejected typeError)
      end
  | Pending => ([], Pending)
  end.

(** One call through [apiClient]: the request goes out, the transport
    settles it, the response interceptor runs. *)
Definition call {D} (e : Endpoint) (b : Body) (srv : Server D)
    : list Event * Outcome D :=
  let r := request_of e b in
  let '(evs, o) := interceptResponse (adapter (req_config r) srv) in
  (Sent r :: evs, o).

(** The form [summarizeAPI.summarizeDocument] builds from its options
    (the files are appended first). *)
Definition summarizeDocumentBody (fs : list File)
    (options : gmap string value) : Body :=
  FormBody fs
    ([("max_length", or_else (get options "maxLength") (VNum 1000));
      ("min_length", or_else (get options "minLength") (VNum 200));
      ("summary_type",
        or_else (get options "summaryType") (VStr (lit "comprehensive")));
      ("summary_style",
        or_else (get options "summaryStyle") (VStr (lit "detailed")))]
     ++ (if truthy (get options "customPrompt")
         then [("custom_prompt", get options "customPrompt")]
         else [])).

End Api.

Import Api.

(** ** The input section ([components/sections/InputSection.jsx]) *)

Module InputSection.

(** The store, the component's [processingStatus] state and the effects
    seen so far, oldest first. *)
Record World := mkWorld {
  store : AppStore;
  processingStatus : jsstring;
  log : list Event
}.

Definition emit (e : Event) (w : World) : World :=
  {| store := store w;
     processingStatus := processingStatus w;
     log := log w ++ [e] |}.

Definition emits (es : list Event) (w : World) : World :=
  {| store := store w;
     processingStatus := processingStatus w;
     log := log w ++ es |}.

Definition onStore (f : AppStore → AppStore) (w : World) : World :=
  {| store := f (store w);
     processingStatus := processingStatus w;
     log := log w |}.

Definition setProcessingStatus (st : jsstring) (w : World) : World :=
  {| store := store w;
     processingStatus := st;
     log := log w |}.

(** What the [try] block can throw: a rejected request's error or the
    [new Error('Invalid content type')] of the [default] case. *)
Inductive Thrown :=
| ThrownAxios (e : AxiosError)
| ThrownError (msg : jsstring).

(** [summarySettings.customPrompt || undefined] and the other settings the
    request bodies read. *)
Definition settingsFields (st : gmap string value) : list (string * value) :=
  [("max_length", get st "maxLength");
   ("min_length", get st "minLength");
   ("summary_type", get st "summaryType");
   ("summary_style", get st "summaryStyle");
   ("custom_prompt", or_else (get st "customPrompt") VUndefined)].

Definition documentOptions (st : gmap string value) : gmap string value :=
  <["maxLength" := get st "maxLength"]>
  (<["minLength" := get st "minLength"]>
  (<["summaryType" := get st "summaryType"]>
  (<["summaryStyle" := get st "summaryStyle"]>
  (<["customPrompt" := or_else (get st "customPrompt") VUndefined]> ∅)))).

(** The request of the [switch (activeTab)]; [None] is the [default] case. *)
Definition summarizeCall (s : AppStore) : option (Endpoint * Body) :=
  let ic := inputContent s in
  let st := summarySettings s in
  match activeTab s with
  | TabText =>
      Some (SummarizeText, JsonBody (("text", VStr (text ic)) :: settingsFields st))
  | TabFiles =>
      Some (SummarizeDocument, summarizeDocumentBody (files ic) (documentOptions st))
  | TabUrl =>
      Some (SummarizeUrl, JsonBody (("url", VStr (url ic)) :: settingsFields st))
  | TabYoutube =>
      Some (SummarizeYoutube,
            JsonBody (("url", VStr (youtubeUrl ic)) :: settingsFields st))
  | TabOther _ => None
  end.

(** [files.reduce((sum, file) => sum + file.size, 0)] *)
Definition totalSize (fs : list File) : Z :=
  foldl (λ sum f, sum + file_size f) 0 fs.

(** The large-document notice before the [try]. *)
Definition largeDocumentNotice (w : World) : World :=
  let s := store w in
  match activeTab s with
  | TabFiles =>
      if (0 <? length (files (inputContent s)))%nat
         && (1024 * 1024 <? totalSize (files (inputContent s)))
      then emit (ToastPlain (lit "Large document detected. This may take several minutes."))
             (setProcessingStatus (lit "Processing large document - please wait...") w)
      else w
  | _ => w
  end.

(** The [catch] block. *)
Definition onSummarizeError (err : Thrown) (w : World) : World :=
  let w := emit (ConsoleError (lit "Summarization error:")) w in
  let w :=
    match err with
    | ThrownAxios e =>
        match response e with
        | Some (status, _) =>
            if status =? 500
            then emit (ToastError (lit "Server error. Please try again.")) w
            else emit (ToastError (lit "Failed to generate summary. Please try again.")) w
        | None =>
            if request e
            then emit (ToastError (lit "Cannot connect to the backend server. Please ensure it is running on port 8000.")) w
            else emit (ToastError (lit "Failed to generate summary. Please try again.")) w
        end
    | ThrownError _ =>
        emit (ToastError (lit "Failed to generate summary. Please try again.")) w
    end in
  let w := onStore (λ s, setCurrentStep s StepInput) w in
  let w := onStore (λ s, setLoading s false) w in
  setProcessingStatus [] w.

(** The end of the [try] block, after the awaited call returned. *)
Definition onSummarizeSuccess (result : SummaryResult) (w : World) : World :=
  let w := onStore (λ s, setSummaryResults s result) w in
  let w := onStore (λ s, setCurrentStep s StepResults) w in
  let w := setProcessingStatus [] w in
  let w := onStore (λ s, setLoading s false) w in
  emit (ToastSuccess (lit "Summary generated successfully!")) w.

Section Handler.
Variable url_parses : jsstring → bool.
(** How the backend behaves for the request of this run. *)
Variable srv : Server SummaryResult.

(** [activeTab], [inputContent] and [summarySettings] are the store's
    values at the render the handler belongs to; no action of the run
    changes them, so they are read from the store here.  A request that
    never settles leaves the run at its [await]. *)
Definition handleSummarize (w : World) : World :=
  if negb (hasValidInput url_parses (store w)) then
    emit (ToastError (lit "Please provide valid input content")) w
  else
    let w := onStore (λ s, setLoading s true) w in
    let w := onStore (λ s, setCurrentStep s StepProcessing) w in
    let w := setProcessingStatus (lit "Processing document...") w in
    let w := largeDocumentNotice w in
    match summarizeCall (store w) with
    | None => onSummarizeError (ThrownError (lit "Invalid content type")) w
    | Some (ep, body) =>
        let '(evs, o) := call ep body srv in
        let w := emits evs w in
        match o with
        | Resolved result => onSummarizeSuccess result w
        | Rejected e => onSummarizeError (ThrownAxios e) w
        | Pending => w
        end
    end.

End Handler.

(** The events a run added to the log. *)
Definition added (w w' : World) : list Event :=
  drop (length (log w)) (log w').

(** The two ends of an all-or-nothing run from [w] to [w']: a result was
    stored (in [summaryResults] and at the front of the history) and the
    step is 'results'; or an error was shown, the stored results are as
    before and the step is 'input'. *)
Definition completed (w w' : World) : Prop :=
  ∃ r : SummaryResult,
    summaryResults (store w') = Some r
    ∧ summaryHistory (store w') = r :: take 9 (summaryHistory (store w))
    ∧ currentStep (store w') = StepResults.

Definition failed (w w' : World) : Prop :=
  (∃ msg, ToastError msg ∈ added w w')
  ∧ summaryResults (store w') = summaryResults (store w)
  ∧ summaryHistory (store w') = summaryHistory (store w)
  ∧ currentStep (store w') = StepInput.

(** A summary result for examples. *)
Definition shownSummary : SummaryResult :=
  mkSummaryResult (lit "Chunks overlap.") None.

(** A platform URL parser for examples: it accepts what starts with a
    scheme of the web. *)
Definition sampleUrlParses (u : jsstring) : bool :=
  match strip_prefix (lit "http://") u, strip_prefix (lit "https://") u with
  | None, None => false
  | _, _ => true
  end.

End InputSection.

(** ** The Q&A section ([components/sections/QASection.jsx]) *)

Module QASection.

(** The body of a [/qa/conversation] answer. *)
Record QAResponse := mkQAResponse {
  r_answer : jsstring;
  r_confidence : float;
  r_supporting_text : option jsstring
}.

(** The store, the component's [isAsking] state and the effects so far. *)
Record World := mkWorld {
  store : AppStore;
  isAsking : bool;
  log : list Event
}.

Definition emit (e : Event) (w : World) : World :=
  {| store := store w; isAsking := isAsking w; log := log w ++ [e] |}.

Definition emits (es : list Event) (w : World) : World :=
  {| store := store w; isAsking := isAsking w; log := log w ++ es |}.

Definition onStore (f : AppStore → AppStore) (w : World) : World :=
  {| store := f (store w); isAsking := isAsking w; log := log w |}.

Definition setIsAsking (b : bool) (w : World) : World :=
  {| store := store w; isAsking := b; log := log w |}.

(** [qaHistory.slice(0, 3).map(qa => ({question: qa.question, answer:
    qa.answer}))] *)
Definition conversationHistory (h : list QAInteraction) : list HistoryItem :=
  map (λ qa, mkHistoryItem (question qa) (answer qa)) (take 3 h).

Section Handler.
Variable clk : Clock.
Variable srv : Server QAResponse.

(** [question] defaults to the store's [currentQuestion].  [qaHistory] is
    the store's value at the render the handler belongs to; nothing before
    the request changes it, so it is read from the store here. *)
Definition handleAskQuestion (arg : option jsstring) (w : World) : World :=
  let q := default (currentQuestion (store w)) arg in
  if negb (str_truthy (trim q)) then
    emit (ToastError (lit "Please enter a question")) w
  else
    let context := getQAContext (store w) in
    if negb (str_truthy context) then
      emit (ToastError (lit "No content available for Q&A")) w
    else
      let w := setIsAsking true w in
      let history := conversationHistory (qaHistory (store w)) in
      let '(evs, o) :=
        call ConversationalQA
          (ConversationBody q context history (lit "en")) srv in
      let w := emits evs w in
      match o with
      | Resolved r =>
          let w := onStore (λ s, addQAInteraction s clk q (r_answer r)
                                   (r_confidence r) (r_supporting_text r)) w in
          let w := onStore (λ s, setCurrentQuestion s []) w in
          let w := emit (ToastSuccess (lit "Question answered!")) w in
          setIsAsking false w
      | Rejected _ =>
          let w := emit (ToastError (lit "Failed to get answer. Please try again.")) w in
          setIsAsking false w
      | Pending => w
      end.

End Handler.

(** [confidence] is a JavaScript number, an IEEE 754 binary64; [>=] is
    the IEEE comparison. *)
Definition getConfidenceColor (confidence : float) : string :=
  if PrimFloat.leb 0.8 confidence then "text-green-600 bg-green-100"
  else if PrimFloat.leb 0.6 confidence then "text-yellow-600 bg-yellow-100"
  else "text-red-600 bg-red-100".

Definition getConfidenceLabel (confidence : float) : string :=
  if PrimFloat.leb 0.8 confidence then "High"
  else if PrimFloat.leb 0.6 confidence then "Medium"
  else "Low".

(** The label and the colour classes that go together in the badge. *)
Definition confidencePalette : list (string * string) :=
  [("High", "text-green-600 bg-green-100");
   ("Medium", "text-yellow-600 bg-yellow-100");
   ("Low", "text-red-600 bg-red-100")].

(** A state for examples: a summary is present and four questions were
    asked, the latest first. *)
Definition sampleSummary : SummaryResult :=
  mkSummaryResult (lit "Chunks overlap.") None.

Definition sampleEntry (n : Z) (q a : string) : QAInteraction :=
  mkQAInteraction n (lit q) (lit a) 0.7%float None (lit "2024-01-01T00:00:00.000Z").

Definition sampleWorld : World :=
  {| store :=
       {| isLoading := false;
          currentStep := StepResults;
          activeTab := TabText;
          inputContent := mkInputContent [] [] [] [];
          summaryResults := Some sampleSummary;
          summaryHistory := [sampleSummary];
          qaHistory := [sampleEntry 4 "q4" "a4"; sampleEntry 3 "q3" "a3";
                        sampleEntry 2 "q2" "a2"; sampleEntry 1 "q1" "a1"];
          currentQuestion := lit "why?";
          summarySettings := initialSettings |};
     isAsking := false;
     log := [] |}.

Definition sampleClock : Clock :=
  mkClock 1704067200000 (lit "2024-01-01T00:00:00.000Z").

End QASection.

(** ** The chunker (backend, spec section 4.2) *)

Module Chunker.

Local Open Scope nat_scope.

(** Modelled from the spec: the chunk record of section 3 (ordinal index,
    text span, overlap with the previous chunk); the backend's chunker
    source is not among the front-end files. *)
Record Chunk (A : Type) := mkChunk {
  index : nat;
  span : list A;
  overlap_with_previous : nat
}.
Arguments mkChunk {A} index span overlap_with_previous.
Arguments index {A} c.
Arguments span {A} c.
Arguments overlap_with_previous {A} c.

(** Modelled from the spec: the error of section 7 that the chunker
    raises. *)
Inductive ChunkError := InvalidInputError.

Section Chunking.
(** The units of the text: characters or tokens. *)
Context {A : Type}.
(** Whether a unit ends a sentence or paragraph. *)
Variable is_break : A → bool.
(** How far back from the budget edge a break is looked for. *)
Variable tolerance : nat.
(** The size budget [B] and the overlap [O]. *)
Variables (budget overlap : nat).

(** Modelled from the spec: a text span, [T[from .. to)]. *)
Definition slice (T : list A) (from to : nat) : list A :=
  take (to - from) (drop from T).

(** Modelled from the spec: whether a cut at position [p] falls right
    after a sentence or paragraph break. *)
Definition break_before (T : list A) (p : nat) : bool :=
  match p with
  | O => false
  | S p' => match T !! p' with
            | Some a => is_break a
            | None => false
            end
  end.

(** Modelled from the spec: "prefers the nearest sentence/paragraph break
    to the budget edge within a tolerance window; falls back to a hard cut
    otherwise".  [n] candidate cuts are tried, from [p] downwards. *)
Fixpoint nearest_break (T : list A) (n p : nat) : option nat :=
  match n with
  | O => None
  | S n' =>
      if break_before T p then Some p
      else match p with
           | O => None
           | S p' => nearest_break T n' p'
           end
  end.

(** Modelled from the spec: boundary selection.  The end of the chunk
    that starts at [start] when the previous chunk ended at [prev_end]: the budget edge, moved back to a break inside the
    tolerance window when there is one past [prev_end]; the last chunk
    runs to the end of the text. *)
Definition select_boundary (T : list A) (start prev_end : nat) : nat :=
  let edge := Nat.min (start + budget) (length T) in
  if (length T <=? edge)%nat then length T
  else
    match nearest_break T (Nat.min (S tolerance) (edge - prev_end)) edge with
    | Some p => p
    | None => edge
    end.

(** Modelled from the spec: ordered chunks, each within the budget, each
    starting [overlap] units before the end of the one before it.  [fuel]
    bounds the number of chunks. *)
Fixpoint chunk_from (fuel : nat) (T : list A) (start prev_end idx : nat)
    : list (Chunk A) :=
  match fuel with
  | O => []
  | S fuel' =>
      let e := select_boundary T start prev_end in
      let c := mkChunk idx (slice T start e) (prev_end - start) in
      if (length T <=? e)%nat then [c]
      else c :: chunk_from fuel' T (e - overlap) e (S idx)
  end.

(** Modelled from the spec: the chunker's entry point; "empty input is
    rejected with InvalidInputError before chunking is attempted". *)
Definition chunk_text (T : list A) : ChunkError + list (Chunk A) :=
  match T with
  | [] => inl InvalidInputError
  | _ :: _ => inr (chunk_from (length T) T 0 0 0)
  end.

(** Modelled from the spec: "removing overlaps and concatenating
    chunks". *)
Definition reconstruct (cs : list (Chunk A)) : list A :=
  concat (map (λ c, drop (overlap_with_previous c) (span c)) cs).

(** Modelled from the spec: the boundaries of a chunk list, where each
    chunk starts and ends in the text. *)
Fixpoint boundaries_from (prev_end : nat) (cs : list (Chunk A))
    : list (nat * nat) :=
  match cs with
  | [] => []
  | c :: cs' =>
      let start := prev_end - overlap_with_previous c in
      (start, start + length (span c))
        :: boundaries_from (start + length (span c)) cs'
  end.

End Chunking.

End Chunker.

(** ** White space *)

Module Whitespace.

(** A string of nothing but units that [trim] strips. *)
Definition blank (s : jsstring) : Prop := Forall (λ c, strippable c = true) s.

End Whitespace.

Import Whitespace.

(** ** The YouTube input ([components/input/YoutubeInput.jsx]) *)

Module YoutubeInput.

(** The three literals before the capture group of [extractVideoId]'s
    pattern, in the order the alternation tries them. *)
Definition idMarkers : list jsstring :=
  [lit "youtube.com/watch?v="; lit "youtu.be/"; lit "youtube.com/embed/"].

(** The class [[^&\n?#]]: any code unit but ampersand, line feed, question
    mark and hash. *)
Definition id_unit (c : N) : bool :=
  negb ((c =? 38) || (c =? 10) || (c =? 63) || (c =? 35))%N.

(** The longest prefix made of units of the class (the greedy [+]). *)
Fixpoint id_run (s : jsstring) : jsstring :=
  match s with
  | c :: s' => if id_unit c then c :: id_run s' else []
  | [] => []
  end.

(** The pattern tried at the start of [s]: the first alternative that is
    followed by at least one unit of the class gives the capture. *)
Fixpoint match_markers (ms : list jsstring) (s : jsstring) : option jsstring :=
  match ms with
  | [] => None
  | m :: ms' =>
      match strip_prefix m s with
      | Some (c :: r) =>
          if id_unit c then Some (id_run (c :: r)) else match_markers ms' s
      | _ => match_markers ms' s
      end
  end.

(** [url.match(/(?:youtube\.com\/watch\?v=|youtu\.be\/|youtube\.com\/embed\/)([^&\n?#]+)/)]
    and [match ? match[1] : null]: the leftmost position where the pattern
    matches. *)
Fixpoint extractVideoId (url : jsstring) : option jsstring :=
  match match_markers idMarkers url with
  | Some v => Some v
  | None =>
      match url with
      | [] => None
      | _ :: url' => extractVideoId url'
      end
  end.

End YoutubeInput.

(** ** The text input ([components/input/TextInput.jsx]) *)

Module TextInput.

(** [s.split(sep)] for a one-unit separator: the pieces between the
    separators, empty pieces included; the empty string gives one empty
    piece. *)
Fixpoint split (sep : N) (s : jsstring) : list jsstring :=
  match s with
  | [] => [[]]
  | c :: s' =>
      if (c =? sep)%N then [] :: split sep s'
      else match split sep s' with
           | piece :: pieces => (c :: piece) :: pieces
           | [] => [[c]]
           end
  end.

(** [inputContent.text.split(' ').filter(word => word.length > 0).length] *)
Definition wordCount (text : jsstring) : nat :=
  length (List.filter (λ word, (0 <? length word)%nat) (split 32 text)).

End TextInput.

(** ** The file input ([components/input/FileInput.jsx]) *)

Module FileInput.

(** The store and the effects seen so far, oldest first. *)
Record World := mkWorld {
  store : AppStore;
  log : list Event
}.

(** [String(n)] for a count. *)
Fixpoint digits (d : Decimal.uint) : jsstring :=
  match d with
  | Decimal.Nil => []
  | Decimal.D0 d => 48%N :: digits d
  | Decimal.D1 d => 49%N :: digits d
  | Decimal.D2 d => 50%N :: digits d
  | Decimal.D3 d => 51%N :: digits d
  | Decimal.D4 d => 52%N :: digits d
  | Decimal.D5 d => 53%N :: digits d
  | Decimal.D6 d => 54%N :: digits d
  | Decimal.D7 d => 55%N :: digits d
  | Decimal.D8 d => 56%N :: digits d
  | Decimal.D9 d => 57%N :: digits d
  end.

Definition countText (n : nat) : jsstring := digits (Nat.to_uint n).

Section Handlers.
(** [isValidFileType(file, allowedTypes)] of [lib/utils], with
    [allowedTypes = ['pdf', 'docx', 'txt']]. *)
Variable isValidFileType : File → bool.

(** The size limit of [onDrop]: [file.size > 10 * 1024 * 1024]. *)
Definition tooLarge (f : File) : bool := 10 * 1024 * 1024 <? file_size f.

(** The callback of [acceptedFiles.filter]: whether the file is kept, and
    the toast shown when it is not. *)
Definition keepFile (f : File) : bool * list Event :=
  if negb (isValidFileType f) then
    (false, [ToastError (file_name f ++ lit " is not a supported file type")])
  else if tooLarge f then
    (false, [ToastError (file_name f ++ lit " is too large (max 10MB)")])
  else (true, []).

Definition validFiles (acceptedFiles : list File) : list File :=
  List.filter (λ f, (keepFile f).1) acceptedFiles.

(** [rejectedFiles] holds the files the dropzone itself turned down
    ([file.file.name] is the name of each). *)
Definition onDrop (acceptedFiles rejectedFiles : list File) (w : World)
    : World :=
  let rejections :=
    map (λ f, ToastError (file_name f ++ lit " is not a supported file type"))
      rejectedFiles in
  let refusals := concat (map (λ f, (keepFile f).2) acceptedFiles) in
  let valid := validFiles acceptedFiles in
  if (0 <? length valid)%nat then
    {| store :=
         updateInputContent (store w)
           (SetFiles (files (inputContent (store w)) ++ valid));
       log := log w ++ rejections ++ refusals
              ++ [ToastSuccess (countText (length valid) ++ lit " file(s) added")] |}
  else
    {| store := store w; log := log w ++ rejections ++ refusals |}.

End Handlers.

(** [inputContent.files.filter((_, i) => i !== index)] *)
Fixpoint dropIndex (index i : nat) (fs : list File) : list File :=
  match fs with
  | [] => []
  | f :: fs' =>
      if (i =? index)%nat then dropIndex index (S i) fs'
      else f :: dropIndex index (S i) fs'
  end.

Definition removeFile (index : nat) (w : World) : World :=
  {| store :=
       updateInputContent (store w)
         (SetFiles (dropIndex index 0 (files (inputContent (store w)))));
     log := log w |}.

End FileInput.

(** ** The keyword cloud ([components/visualization/KeywordCloud.jsx]) *)

Module KeywordCloud.

Local Open Scope nat_scope.

Definition sizeClasses : list string :=
  ["text-2xl font-bold"; "text-xl font-semibold"; "text-lg font-medium";
   "text-base font-medium"; "text-sm font-normal"].

Definition colorClasses : list string :=
  ["text-blue-600"; "text-green-600"; "text-purple-600"; "text-orange-600";
   "text-red-600"; "text-indigo-600"; "text-pink-600"; "text-teal-600"].

(** [Math.ceil(total / 5)] for a count [total]. *)
Definition groupSize (total : nat) : nat := (total + 4) / 5.

(** [Math.min(Math.floor(index / Math.ceil(total / 5)), sizeClasses.length - 1)]
    for [total > 0] (the component renders nothing for an empty keyword
    list); on counts the quotient's floor is the integer quotient. *)
Definition sizeIndex (index total : nat) : nat :=
  Nat.min (index / groupSize total) (length sizeClasses - 1).

(** [index % colorClasses.length] *)
Definition colorIndex (index : nat) : nat := index mod length colorClasses.

(** The [className] of [getKeywordStyle]; a list index out of range reads
    as [undefined]. *)
Definition className (index total : nat) : option string :=
  match sizeClasses !! sizeIndex index total, colorClasses !! colorIndex index with
  | Some sz, Some col =>
      Some (String.append sz
             (String.append " "
               (String.append col
                  " hover:opacity-80 transition-opacity cursor-default")))
  | _, _ => None
  end.

End KeywordCloud.

(** ** The Q&A section: suggested questions *)

Module Suggestions.

Import QASection.


(** The store with the component's [suggestedQuestions] and
    [isLoadingSuggestions] state and the effects so far. *)
Record Panel := mkPanel {
  p_store : AppStore;
  suggestedQuestions : list jsstring;
  isLoadingSuggestions : bool;
  p_log : list Event
}.






(** States for examples. *)
Definition samplePanel : Panel :=
  mkPanel (store sampleWorld) [lit "old suggestion"] false [].


End Suggestions.

(** ** What a log shows *)

Module Observations.

Definition isToastError (e : Event) : bool :=
  match e with ToastError _ => true | _ => false end.

Definition isToastSuccess (e : Event) : bool :=
  match e with ToastSuccess _ => true | _ => false end.

Definition isSent (e : Event) : bool :=
  match e with Sent _ => true | _ => false end.

Definition errorToasts (es : list Event) : nat :=
  length (List.filter isToastError es).

Definition requestsSent (es : list Event) : list Event :=
  List.filter isSent es.

(** The named fields a request body carries. *)
Definition bodyFields (b : Body) : list (string * value) :=
  match b with
  | JsonBody fields | FormBody _ fields | ParamsBody fields => fields
  | ConversationBody _ _ _ _ | NoBody => []
  end.

(** The events a run of a Q&A handler added to the log. *)
Definition asked (w w' : QASection.World) : list Event :=
  drop (length (QASection.log w)) (QASection.log w').

(** The request of a run of [handleAskQuestion] that gets past the two
    guards. *)
Definition askRequest (arg : option jsstring) (w : QASection.World)
    : Request :=
  request_of ConversationalQA
    (ConversationBody (default (currentQuestion (QASection.store w)) arg)
       (getQAContext (QASection.store w))
       (QASection.conversationHistory (qaHistory (QASection.store w)))
       (lit "en")).

(** A full summary result has its text and its metadata. *)
Definition fullSummaryResult (r : SummaryResult) : Prop :=
  summary r ≠ [] ∧ is_Some (metadata r).

(** The first end of an all-or-nothing run, with what is stored being a
    full summary result. *)
Definition completedFull (w w' : InputSection.World) : Prop :=
  ∃ r : SummaryResult,
    summaryResults (InputSection.store w') = Some r
    ∧ fullSummaryResult r
    ∧ currentStep (InputSection.store w') = StepResults.

(** The JSON body [{"summary": ""}]: no text, no metadata. *)
Definition partialSummary : SummaryResult := mkSummaryResult [] None.

(** Stores for examples: a text typed in, and settings changed. *)
Definition typedStore : AppStore :=
  updateInputContent initialState (SetText (lit "hello world!")).

Definition typedWorld : InputSection.World :=
  InputSection.mkWorld typedStore [] [].

Definition briefSettings : gmap string value :=
  <["summaryStyle" := VStr (lit "brief")]> (<["maxLength" := VNum 400]> ∅).

Definition bulletSettings : gmap string value :=
  <["summaryType" := VStr (lit "bullet_points")]>
  (<["maxLength" := VNum 600]> ∅).

End Observations.

Import Observations.

(** ** Runs of store actions *)

Module Runs.

(** The arguments of one [addQAInteraction] call, with what the clock read
    at that call. *)
Record QAArgs := mkQAArgs {
  at_clock : Clock;
  arg_question : jsstring;
  arg_answer : jsstring;
  arg_confidence : float;
  arg_supportingText : option jsstring
}.

Definition addOne (s : AppStore) (x : QAArgs) : AppStore :=
  addQAInteraction s (at_clock x) (arg_question x) (arg_answer x)
    (arg_confidence x) (arg_supportingText x).

Definition entryOf (x : QAArgs) : QAInteraction :=
  {| id := date_now (at_clock x);
     question := arg_question x;
     answer := arg_answer x;
     confidence := arg_confidence x;
     supportingText := arg_supportingText x;
     timestamp := iso_now (at_clock x) |}.

(** The calls [xs], first to last, from the state [s]. *)
Definition addAll (s : AppStore) (xs : list QAArgs) : AppStore :=
  foldl addOne s xs.

(** Successive [setSummaryResults] calls, first to last. *)
Definition storeAll (s : AppStore) (rs : list SummaryResult) : AppStore :=
  foldl setSummaryResults s rs.

Definition sampleArgs : QAArgs :=
  mkQAArgs (mkClock 1700000000000 (lit "2023-11-14T22:13:20.000Z"))
    (lit "What is it about?") (lit "Chunking.") 0.9%float None.

End Runs.

Import Runs.

(** * Properties *)

(** ** The store *)

Module StoreFacts.

Lemma qaHistory_addAll (xs : list QAArgs) (s : AppStore) :
  qaHistory (addAll s xs) = rev (map entryOf xs) ++ qaHistory s.
Proof.
  revert s. induction xs as [|x xs IH]; intros s; [done|].
  cbn [addAll foldl]. unfold addAll in IH. rewrite IH.
  cbn [map rev]. rewrite <- app_assoc. done.
Qed.

Lemma qaHistory_addAll_length (xs : list QAArgs) (s : AppStore) :
  length (qaHistory (addAll s xs)) = (length xs + length (qaHistory s))%nat.
Proof.
  rewrite qaHistory_addAll, length_app, length_rev, length_map. done.
Qed.

(** C1, as the store has it: [addQAInteraction] puts the new interaction
    at the front of [qaHistory] and keeps every earlier entry behind it, in
    order; the stored history grows by one with each call, whatever its
    length (nothing is dropped), and no other field of the store changes. *)
Theorem addQAInteraction_prepends (s : AppStore) (clk : Clock)
    (q a : jsstring) (c : float) (sup : option jsstring) :
  let s' := addQAInteraction s clk q a c sup in
  qaHistory s' = newInteraction clk q a c sup :: qaHistory s
  ∧ qaHistory s' !! 0%nat
    = Some (mkQAInteraction (date_now clk) q a c sup (iso_now clk))
  ∧ (∀ i : nat, qaHistory s' !! S i = qaHistory s !! i)
  ∧ length (qaHistory s') = S (length (qaHistory s))
  ∧ summaryResults s' = summaryResults s
  ∧ summaryHistory s' = summaryHistory s.
Proof. cbn. repeat split. Qed.

(** C1 as stated fails: no fixed bound holds for the history over all
    sequences of additions. *)
Lemma qaHistory_has_no_bound :
  ¬ (∃ bound : nat, ∀ xs : list QAArgs,
        (length (qaHistory (addAll initialState xs)) ≤ bound)%nat).
Proof.
  intros [bound Hb].
  specialize (Hb (replicate (S bound) sampleArgs)).
  rewrite qaHistory_addAll_length, length_replicate in Hb.
  cbn in Hb. lia.
Qed.

Lemma take_10_after_slice {A} (pre h : list A) (r : A) :
  take 10 (pre ++ r :: take 9 h) = take 10 (pre ++ r :: h).
Proof.
  destruct (decide (10 ≤ length pre)%nat) as [Hlong|Hshort].
  - rewrite !take_app_le by lia. done.
  - rewrite !take_app_ge by lia. f_equal.
    destruct (10 - length pre)%nat as [|n] eqn:E; [lia|].
    cbn [take]. f_equal.
    rewrite take_take. f_equal. lia.
Qed.

Lemma summaryHistory_storeAll (rs : list SummaryResult) (s : AppStore) :
  rs ≠ [] →
  summaryHistory (storeAll s rs) = take 10 (rev rs ++ summaryHistory s).
Proof.
  revert s. induction rs as [|r rs IH]; intros s Hne; [done|].
  cbn [storeAll foldl]. destruct rs as [|r' rs].
  - done.
  - unfold storeAll in IH. rewrite IH by done.
    cbn [setSummaryResults summaryHistory].
    change (rev (r :: r' :: rs)) with (rev (r' :: rs) ++ [r]).
    rewrite <- app_assoc. cbn [app].
    apply take_10_after_slice.
Qed.

(** C9: [setSummaryResults] stores the new result, puts it at the front of
    [summaryHistory] followed by the first nine earlier entries, so the
    history never has more than ten entries, whatever it was before. *)
Theorem setSummaryResults_keeps_last_ten (s : AppStore) (r : SummaryResult) :
  let s' := setSummaryResults s r in
  summaryResults s' = Some r
  ∧ summaryHistory s' = r :: take 9 (summaryHistory s)
  ∧ (length (summaryHistory s') ≤ 10)%nat
  ∧ (∀ i : nat, (i < 9)%nat →
       summaryHistory s' !! S i = summaryHistory s !! i)
  ∧ (∀ i : nat, (9 ≤ i)%nat → summaryHistory s' !! S i = None).
Proof.
  cbn. repeat split.
  - rewrite length_take. lia.
  - intros i Hi. by apply lookup_take_lt.
  - intros i Hi. by apply lookup_take_ge.
Qed.

(** C10: [updateSummarySettings] changes exactly the keys its argument
    has; every other key of [summarySettings] and every other field of the
    store is as before. *)
Theorem updateSummarySettings_frame (s : AppStore)
    (settings : gmap string value) :
  let s' := updateSummarySettings s settings in
  (∀ k : string, settings !! k = None →
     summarySettings s' !! k = summarySettings s !! k)
  ∧ (∀ (k : string) (v : value), settings !! k = Some v →
       summarySettings s' !! k = Some v)
  ∧ isLoading s' = isLoading s
  ∧ currentStep s' = currentStep s
  ∧ activeTab s' = activeTab s
  ∧ inputContent s' = inputContent s
  ∧ summaryResults s' = summaryResults s
  ∧ summaryHistory s' = summaryHistory s
  ∧ qaHistory s' = qaHistory s
  ∧ currentQuestion s' = currentQuestion s.
Proof.
  cbn. unfold spread2. repeat split.
  - intros k Hk. by rewrite lookup_union_r.
  - intros k v Hk. by apply lookup_union_Some_l.
Qed.

(** *** The validity checks on small inputs *)

Example trim_strips_both_ends :
  trim ([32; 9; 160]%N ++ lit "ab c" ++ [10; 8233; 32]%N) = lit "ab c".
Proof. reflexivity. Qed.

Example trim_blank : trim [32; 10; 9; 12288]%N = [].
Proof. reflexivity. Qed.

Example youtube_urls :
  isYouTubeUrl (lit "https://www.youtube.com/watch?v=abc") = true
  ∧ isYouTubeUrl (lit "youtu.be/abc") = true
  ∧ isYouTubeUrl (lit "http://youtube.com/") = false
  ∧ isYouTubeUrl (lit "https://vimeo.com/1") = false
  ∧ isYouTubeUrl (lit "see https://youtu.be/abc") = false
  ∧ isYouTubeUrl (lit "youtu.be/" ++ [10]%N) = false.
Proof. repeat split. Qed.

Example eleven_characters_are_enough :
  hasValidInput (λ _, false)
    (updateInputContent initialState (SetText (lit " hello world "))) = true
  ∧ hasValidInput (λ _, false)
      (updateInputContent initialState (SetText (lit "  0123456789  "))) = false.
Proof. split; reflexivity. Qed.

End StoreFacts.

(** ** The API client *)

Module ApiFacts.

Lemma timeout_of_request (e : Endpoint) (b : Body) :
  timeout (req_config (request_of e b))
  = match e with SummarizeDocument => 900000 | _ => 600000 end.
Proof. by destruct e. Qed.

Lemma adapter_settles {D} (cfg : Config) (srv : Server D) :
  0 < timeout cfg → adapter cfg srv ≠ Pending.
Proof.
  intros Ht%Z.ltb_lt. unfold adapter. rewrite Ht.
  destruct srv as [lat st d det| |]; [|done..].
  cbn. destruct (timeout cfg <=? lat); [done|].
  by destruct ((200 <=? st) && (st <? 300)).
Qed.

Lemma adapter_expired {D} (cfg : Config) (srv : Server D) :
  0 < timeout cfg → expires (timeout cfg) srv = true →
  adapter cfg srv = Rejected timeoutError.
Proof.
  intros Ht%Z.ltb_lt Hex. unfold adapter. rewrite Ht.
  destruct srv as [lat st d det| |]; cbn in *; [|done..].
  by rewrite Hex.
Qed.

(** The interceptor's handler throws exactly for a 400 answer with a
    [null] body; otherwise it shows one error toast. *)
Lemma interceptError_cases (e : AxiosError) :
  (response e = Some (400, NullData) ∧ interceptError e = None)
  ∨ (response e ≠ Some (400, NullData)
     ∧ ∃ msg, interceptError e = Some [ToastError msg]).
Proof.
  unfold interceptError.
  destruct (response e) as [[st data]|].
  - destruct (Z.eqb_spec st 400) as [->|Hne].
    + destruct data as [|detail]; [by left|]. right. split; [done|by eexists].
    + right. split; [congruence|]. repeat case_match; by eexists.
  - right. split; [done|]. repeat case_match; by eexists.
Qed.

(** What the interceptor makes of a rejected request. *)
Lemma intercept_events {D} (e : AxiosError) :
  (response e = Some (400, NullData)
   ∧ interceptResponse (D:=D) (Rejected e) = ([], Rejected typeError))
  ∨ (∃ msg, response e ≠ Some (400, NullData)
            ∧ interceptResponse (D:=D) (Rejected e)
              = ([ToastError msg], Rejected e)).
Proof.
  unfold interceptResponse.
  destruct (interceptError_cases e) as [[Hr ->]|(Hr & msg & ->)]; [by left|].
  right. by exists msg.
Qed.

(** What one call leaves in the log: the request, then what the
    interceptor shows, which is never another request. *)
Lemma call_shape {D} (e : Endpoint) (b : Body) (srv : Server D) :
  ∃ evs o, call e b srv = (Sent (request_of e b) :: evs, o)
           ∧ ∀ r, Sent r ∉ evs.
Proof.
  unfold call.
  destruct (adapter (req_config (request_of e b)) srv) as [d|err|].
  - eexists _, _. split; [done|]. intros r Hr. inversion Hr.
  - destruct (intercept_events (D:=D) err) as [(_ & ->)|(msg & _ & ->)].
    + eexists _, _. split; [done|]. intros r Hr. inversion Hr.
    + eexists _, _. split; [done|]. intros r.
      rewrite list_elem_of_singleton. discriminate.
  - eexists _, _. split; [done|]. intros r Hr. inversion Hr.
Qed.

Lemma interceptResponse_rejected {D} (e : AxiosError) :
  ∃ e', (interceptResponse (D:=D) (Rejected e)).2 = Rejected e'.
Proof.
  destruct (intercept_events (D:=D) e) as [(_ & ->)|(msg & _ & ->)];
    by eexists.
Qed.

Lemma call_settles {D} (e : Endpoint) (b : Body) (srv : Server D) :
  (call e b srv).2 ≠ Pending.
Proof.
  unfold call.
  assert (Hpos : 0 < timeout (req_config (request_of e b))).
  { rewrite timeout_of_request. destruct e; lia. }
  pose proof (adapter_settles (req_config (request_of e b)) srv Hpos).
  destruct (adapter _ srv) as [d|err|]; [done| |done].
  destruct (interceptResponse_rejected (D:=D) err) as [e' He'].
  destruct (interceptResponse (Rejected err)) as [evs o]. cbn in *.
  by subst.
Qed.

(** A call is fulfilled only with the body of an answer the server gave. *)
Lemma call_resolved {D} (e : Endpoint) (b : Body) (srv : Server D) (d : D) :
  (call e b srv).2 = Resolved d →
  ∃ latency status detail,
    srv = Answers latency status d detail ∧ 200 ≤ status < 300.
Proof.
  unfold call.
  destruct (adapter (req_config (request_of e b)) srv) as [d'|err|] eqn:Had.
  - cbn. intros [= <-]. unfold adapter in Had.
    destruct srv as [lat st d0 det| |].
    + destruct ((0 <? _) && (_ <=? lat)); [discriminate|].
      destruct ((200 <=? st) && (st <? 300)) eqn:Hst; [|discriminate].
      injection Had as ->. exists lat, st, det. split; [done|].
      apply andb_true_iff in Hst as [?%Z.leb_le ?%Z.ltb_lt]. lia.
    + discriminate.
    + destruct (0 <? _); discriminate.
  - destruct (interceptResponse_rejected (D:=D) err) as [e' He'].
    destruct (interceptResponse (Rejected err)) as [evs o]. cbn in *.
    by subst.
  - done.
Qed.

(** C7: every request that goes through the client, the summarization,
    Q&A and export ones among them, carries a timeout of 600000 ms, or
    900000 ms for document summarization; so no call stays unsettled, and a
    call that gets no response within its timeout is rejected with the
    timeout error, after the timeout toast. *)
Theorem requests_carry_timeout (e : Endpoint) (b : Body) :
  let r := request_of e b in
  timeout (req_config r)
  = match e with SummarizeDocument => 900000 | _ => 600000 end
  ∧ 0 < timeout (req_config r)
  ∧ ∀ (D : Type) (srv : Server D),
      (call e b srv).2 ≠ Pending
      ∧ (expires (timeout (req_config r)) srv = true →
         call e b srv
         = ([Sent r;
             ToastError (lit "Request timeout. The operation is taking longer than expected. Please try again.")],
            Rejected timeoutError)).
Proof.
  cbn zeta.
  assert (Hpos : 0 < timeout (req_config (request_of e b))).
  { rewrite timeout_of_request. destruct e; lia. }
  split; [apply timeout_of_request|]. split; [exact Hpos|].
  intros D srv. split.
  - apply call_settles.
  - intros Hex. unfold call. by rewrite (adapter_expired _ srv Hpos Hex).
Qed.

(** A backend that answers a document request after 16 minutes is not
    waited for. *)
Example slow_document_request :
  call SummarizeDocument NoBody
    (Answers 960000 200 QASection.sampleSummary (DataWith None))
  = ([Sent (request_of SummarizeDocument NoBody);
      ToastError (lit "Request timeout. The operation is taking longer than expected. Please try again.")],
     Rejected timeoutError).
Proof. reflexivity. Qed.

(** The same answer after 12 minutes arrives in time for a document
    request and too late for a text request. *)
Example twelve_minutes :
  (call SummarizeDocument NoBody
     (Answers 720000 200 QASection.sampleSummary (DataWith None))).2
  = Resolved QASection.sampleSummary
  ∧ (call SummarizeText NoBody
       (Answers 720000 200 QASection.sampleSummary (DataWith None))).2
    = Rejected timeoutError.
Proof. split; reflexivity. Qed.

End ApiFacts.

(** ** The input section *)

Module InputFacts.

Import InputSection.

(** When the active input counts as valid, tab by tab. *)
Lemma hasValidInput_true_iff (url_parses : jsstring → bool) (s : AppStore) :
  hasValidInput url_parses s = true
  ↔ match activeTab s with
    | TabText => (10 < length (trim (text (inputContent s))))%nat
    | TabFiles => files (inputContent s) ≠ []
    | TabUrl =>
        trim (url (inputContent s)) ≠ []
        ∧ url_parses (url (inputContent s)) = true
    | TabYoutube =>
        trim (youtubeUrl (inputContent s)) ≠ []
        ∧ isYouTubeUrl (youtubeUrl (inputContent s)) = true
    | TabOther _ => False
    end.
Proof.
  unfold hasValidInput, isValidUrl. destruct (activeTab s).
  - apply Nat.ltb_lt.
  - rewrite Nat.ltb_lt. destruct (files _); cbn; [split; [lia|done]|].
    split; [done|lia].
  - rewrite andb_true_iff, Nat.ltb_lt.
    destruct (trim (url _)); cbn; [|split; intros [? ?]; split; [done|done|lia|done]].
    split; intros [? ?]; [lia|done].
  - rewrite andb_true_iff, Nat.ltb_lt.
    destruct (trim (youtubeUrl _)); cbn; [|split; intros [? ?]; split; [done|done|lia|done]].
    split; intros [? ?]; [lia|done].
  - split; [discriminate|done].
Qed.

(** C4: when [hasValidInput] is false for the active tab, [handleSummarize]
    shows the error toast and returns: the store and the processing status
    are untouched and no request is sent. *)
Theorem handleSummarize_rejects_invalid_input
    (url_parses : jsstring → bool) (srv : Server SummaryResult) (w : World) :
  hasValidInput url_parses (store w) = false →
  let w' := handleSummarize url_parses srv w in
  store w' = store w
  ∧ processingStatus w' = processingStatus w
  ∧ log w' = log w ++ [ToastError (lit "Please provide valid input content")]
  ∧ (∀ r, Sent r ∉ added w w').
Proof.
  intros Hinv. cbn zeta. unfold handleSummarize, added. rewrite Hinv. cbn.
  repeat split. intros r.
  rewrite drop_app_length, list_elem_of_singleton. discriminate.
Qed.

Lemma handleSummarize_rejects_empty_text :
  let w := mkWorld initialState [] [] in
  let w' := handleSummarize sampleUrlParses Silent w in
  store w' = store w
  ∧ processingStatus w' = processingStatus w
  ∧ log w' = log w ++ [ToastError (lit "Please provide valid input content")]
  ∧ (∀ r, Sent r ∉ added w w').
Proof.
  apply (handleSummarize_rejects_invalid_input sampleUrlParses Silent
           (mkWorld initialState [] [])).
  reflexivity.
Defined.

Lemma added_app (w w' : World) (evs : list Event) :
  log w' = log w ++ evs → added w w' = evs.
Proof. unfold added. intros ->. apply drop_app_length. Qed.

Lemma largeDocumentNotice_spec (w : World) :
  store (largeDocumentNotice w) = store w
  ∧ ∃ evs, log (largeDocumentNotice w) = log w ++ evs.
Proof.
  unfold largeDocumentNotice.
  destruct (activeTab (store w)); try (split; [done|]; exists []; by rewrite app_nil_r).
  destruct (_ && _); cbn.
  - split; [done|]. by eexists.
  - split; [done|]. exists []. by rewrite app_nil_r.
Qed.

Lemma onSummarizeError_spec (err : Thrown) (w : World) :
  store (onSummarizeError err w)
  = setLoading (setCurrentStep (store w) StepInput) false
  ∧ processingStatus (onSummarizeError err w) = []
  ∧ ∃ msg, log (onSummarizeError err w)
           = log w ++ [ConsoleError (lit "Summarization error:");
                       ToastError msg].
Proof.
  unfold onSummarizeError.
  destruct err as [e|m]; [destruct (response e) as [[st det]|];
    [destruct (st =? 500)|destruct (request e)]|];
    cbn; (split; [done|]; split; [done|]);
    eexists; by rewrite <- app_assoc.
Qed.

Lemma onSummarizeSuccess_spec (r : SummaryResult) (w : World) :
  store (onSummarizeSuccess r w)
  = setLoading (setCurrentStep (setSummaryResults (store w) r) StepResults)
      false
  ∧ processingStatus (onSummarizeSuccess r w) = []
  ∧ log (onSummarizeSuccess r w)
    = log w ++ [ToastSuccess (lit "Summary generated successfully!")].
Proof. done. Qed.

Lemma summarizeCall_valid (url_parses : jsstring → bool) (s : AppStore) :
  hasValidInput url_parses s = true → is_Some (summarizeCall s).
Proof.
  unfold hasValidInput, summarizeCall.
  destruct (activeTab s); done.
Qed.

End InputFacts.

(** ** The Q&A section *)

Module QAFacts.

Import QASection.

(** *** Comparisons of binary64 numbers *)

Lemma SFcompare_antisym (x y : spec_float) (c : comparison) :
  SFcompare x y = Some c → SFcompare y x = Some (CompOpp c).
Proof.
  destruct x as [sx|sx| |sx mx ex], y as [sy|sy| |sy my ey]; cbn [SFcompare];
    try discriminate; intros [= <-]; f_equal;
    try (destruct sx; try destruct sy; reflexivity).
  rewrite (Z.compare_antisym ex ey).
  change (PosDef.Pos.compare_cont Eq my mx) with (Pos.compare my mx).
  change (PosDef.Pos.compare_cont Eq mx my) with (Pos.compare mx my).
  rewrite (Pos.compare_antisym mx my).
  destruct sx, sy, (ex ?= ey)%Z, (mx ?= my)%positive; reflexivity.
Qed.

Lemma leb_negb_ltb (x y : float) :
  SFcompare (Prim2SF x) (Prim2SF y) ≠ None →
  PrimFloat.leb x y = negb (PrimFloat.ltb y x).
Proof.
  intros Hc. rewrite leb_spec, ltb_spec. unfold SFleb, SFltb.
  destruct (SFcompare (Prim2SF x) (Prim2SF y)) as [c|] eqn:E; [|done].
  rewrite (SFcompare_antisym _ _ _ E). by destruct c.
Qed.

Lemma comparable_of_leb (x y : float) :
  PrimFloat.leb x y = true → SFcompare (Prim2SF x) (Prim2SF y) ≠ None.
Proof. rewrite leb_spec. unfold SFleb. by destruct (SFcompare _ _). Qed.

(** Two numbers compare unless one of them is NaN. *)
Lemma comparable_swap (x y z : float) :
  SFcompare (Prim2SF x) (Prim2SF y) ≠ None →
  SFcompare (Prim2SF z) (Prim2SF z) ≠ None →
  SFcompare (Prim2SF z) (Prim2SF y) ≠ None.
Proof.
  destruct (Prim2SF x), (Prim2SF y), (Prim2SF z); cbn [SFcompare]; congruence.
Qed.

(** [0.8 <= c] implies [0.6 <= c]. *)
Lemma thresholds_ordered (c : float) :
  PrimFloat.leb 0.8 c = true → PrimFloat.leb 0.6 c = true.
Proof.
  rewrite !leb_spec.
  replace (Prim2SF 0.8) with (S754_finite false 7205759403792794 (-53))
    by (vm_compute; reflexivity).
  replace (Prim2SF 0.6) with (S754_finite false 5404319552844595 (-53))
    by (vm_compute; reflexivity).
  unfold SFleb. destruct (Prim2SF c) as [s|s| |s m e]; cbn [SFcompare];
    try (intros H; exact H).
  destruct s; [intros H; exact H|].
  destruct (Z.compare_spec (-53) e) as [_|_|_]; try (intros H; exact H).
  change (PosDef.Pos.compare_cont Eq) with Pos.compare.
  intros H.
  assert (H8 : (7205759403792794 <= m)%positive).
  { unfold Pos.le. destruct (7205759403792794 ?= m)%positive; congruence. }
  assert (H6 : (5404319552844595 <= m)%positive) by lia.
  unfold Pos.le in H6. destruct (5404319552844595 ?= m)%positive; congruence.
Qed.

Lemma palette_agrees (c : float) :
  (getConfidenceLabel c, getConfidenceColor c) ∈ confidencePalette.
Proof.
  unfold getConfidenceLabel, getConfidenceColor, confidencePalette.
  destruct (PrimFloat.leb 0.8 c); [|destruct (PrimFloat.leb 0.6 c)].
  - apply list_elem_of_here.
  - apply list_elem_of_further, list_elem_of_here.
  - do 2 apply list_elem_of_further. apply list_elem_of_here.
Qed.

(** C3: for a confidence [c] in [0,1], the label is "Low" exactly when
    [c < 0.6], "Medium" exactly when [0.6 <= c < 0.8] and "High" exactly
    when [c >= 0.8]; the colour is the one that goes with the label. *)
Theorem confidence_buckets (c : float) :
  PrimFloat.leb 0 c = true →
  PrimFloat.leb c 1 = true →
  (getConfidenceLabel c = "Low" ↔ PrimFloat.ltb c 0.6 = true)
  ∧ (getConfidenceLabel c = "Medium"
       ↔ PrimFloat.leb 0.6 c = true ∧ PrimFloat.ltb c 0.8 = true)
  ∧ (getConfidenceLabel c = "High" ↔ PrimFloat.leb 0.8 c = true)
  ∧ (getConfidenceLabel c, getConfidenceColor c) ∈ confidencePalette.
Proof.
  intros H0 H1.
  pose proof (comparable_of_leb _ _ H0) as Hc.
  assert (E6 : PrimFloat.leb 0.6 c = negb (PrimFloat.ltb c 0.6)).
  { apply leb_negb_ltb. apply (comparable_swap 0%float); [exact Hc|].
    vm_compute. discriminate. }
  assert (E8 : PrimFloat.leb 0.8 c = negb (PrimFloat.ltb c 0.8)).
  { apply leb_negb_ltb. apply (comparable_swap 0%float); [exact Hc|].
    vm_compute. discriminate. }
  pose proof (thresholds_ordered c) as Hord.
  split; [|split; [|split]]; [| | |apply palette_agrees];
    unfold getConfidenceLabel;
    destruct (PrimFloat.leb 0.8 c) eqn:L8;
    destruct (PrimFloat.leb 0.6 c) eqn:L6;
    destruct (PrimFloat.ltb c 0.6) eqn:T6;
    destruct (PrimFloat.ltb c 0.8) eqn:T8;
    cbn in E6, E8; try discriminate E6; try discriminate E8;
    try (specialize (Hord eq_refl); discriminate Hord);
    split; try (intros [? ?]); try intros ?; try split;
    try reflexivity; try discriminate.
Qed.

Lemma confidence_buckets_at_0_7 :
  (getConfidenceLabel 0.7 = "Low" ↔ PrimFloat.ltb 0.7 0.6 = true)
  ∧ (getConfidenceLabel 0.7 = "Medium"
       ↔ PrimFloat.leb 0.6 0.7 = true ∧ PrimFloat.ltb 0.7 0.8 = true)
  ∧ (getConfidenceLabel 0.7 = "High" ↔ PrimFloat.leb 0.8 0.7 = true)
  ∧ (getConfidenceLabel 0.7, getConfidenceColor 0.7) ∈ confidencePalette.
Proof. apply (confidence_buckets 0.7%float); reflexivity. Defined.

(** *** Asking a question *)

Lemma getQAContext_no_summary (s : AppStore) :
  summaryResults s = None → getQAContext s = [].
Proof. unfold getQAContext. by intros ->. Qed.

(** X23: the Q&A context is empty exactly when there is no summary
    result, or when the summary is empty and there is no original content
    (absent or empty) to put before it. *)
Lemma getQAContext_empty_iff (s : AppStore) :
  getQAContext s = []
  ↔ summaryResults s = None
    ∨ ∃ r, summaryResults s = Some r ∧ summary r = []
           ∧ (original_content_of r = None ∨ original_content_of r = Some []).
Proof.
  unfold getQAContext. destruct (summaryResults s) as [r|]; [|by split; auto].
  assert (Hr : ∀ P : SummaryResult → Prop,
             (Some r = None ∨ ∃ r0, Some r = Some r0 ∧ P r0) ↔ P r).
  { intros P. split.
    - intros [?|(r0 & [= <-] & HP)]; [discriminate|exact HP].
    - intros HP. right. by exists r. }
  rewrite Hr.
  destruct (original_content_of r) as [oc|] eqn:E.
  - destruct oc as [|c oc]; cbn.
    + split; [by auto|]. by intros [Hs _].
    + split; [discriminate|]. intros [_ [?|?]]; discriminate.
  - split; [by auto|]. by intros [Hs _].
Qed.

(** C2: with no summary result, or with an empty context, asking a
    question is turned down before any request: the store (the history
    with it) and [isAsking] stay as they were, one error toast is shown and
    nothing is sent. *)
Theorem handleAskQuestion_rejects_empty_context (clk : Clock)
    (srv : Server QAResponse) (arg : option jsstring) (w : World) :
  summaryResults (store w) = None ∨ getQAContext (store w) = [] →
  let w' := handleAskQuestion clk srv arg w in
  store w' = store w
  ∧ isAsking w' = isAsking w
  ∧ (log w' = log w ++ [ToastError (lit "Please enter a question")]
     ∨ log w' = log w ++ [ToastError (lit "No content available for Q&A")])
  ∧ (∀ r, Sent r ∉ drop (length (log w)) (log w')).
Proof.
  intros Hctx.
  assert (Hempty : getQAContext (store w) = []).
  { destruct Hctx as [Hnone|Hnil]; [by apply getQAContext_no_summary|done]. }
  cbn zeta. unfold handleAskQuestion. rewrite Hempty.
  destruct (negb (str_truthy (trim _))); cbn;
    (split; [done|split; [done|split; [auto|]]]);
    intros r; rewrite drop_app_length, list_elem_of_singleton; discriminate.
Qed.

Lemma handleAskQuestion_empty_context_initially :
  let w := mkWorld initialState false [] in
  let w' := handleAskQuestion sampleClock Silent (Some (lit "why?")) w in
  store w' = store w
  ∧ isAsking w' = isAsking w
  ∧ (log w' = log w ++ [ToastError (lit "Please enter a question")]
     ∨ log w' = log w ++ [ToastError (lit "No content available for Q&A")])
  ∧ (∀ r, Sent r ∉ drop (length (log w)) (log w')).
Proof.
  apply (handleAskQuestion_rejects_empty_context sampleClock Silent
           (Some (lit "why?")) (mkWorld initialState false [])).
  left. reflexivity.
Defined.

Lemma conversationHistory_window (h : list QAInteraction) :
  (length (conversationHistory h) ≤ 3)%nat
  ∧ length (conversationHistory h) = Nat.min 3 (length h)
  ∧ (∀ i : nat, (i < 3)%nat →
       conversationHistory h !! i
       = (λ qa, mkHistoryItem (question qa) (answer qa)) <$> h !! i)
  ∧ (∀ i : nat, (3 ≤ i)%nat → conversationHistory h !! i = None).
Proof.
  unfold conversationHistory.
  rewrite length_map, length_take.
  split; [lia|]. split; [done|]. split.
  - intros i Hi. rewrite list_lookup_fmap. f_equal. by apply lookup_take_lt.
  - intros i Hi. rewrite list_lookup_fmap.
    rewrite (lookup_take_ge (A:=QAInteraction)) by done. done.
Qed.

(** X24: after three or more additions the window of a request holds
    exactly the three latest of them, the last added first, whatever the
    history held before. *)
Lemma conversationHistory_latest (xs : list QAArgs) (s : AppStore) :
  (3 ≤ length xs)%nat →
  conversationHistory (qaHistory (addAll s xs))
  = map (λ x, mkHistoryItem (arg_question x) (arg_answer x))
      (take 3 (rev xs)).
Proof.
  intros Hlen. unfold conversationHistory.
  rewrite StoreFacts.qaHistory_addAll.
  rewrite take_app_le by (rewrite length_rev, length_map; lia).
  rewrite <- map_rev, <- firstn_map, map_map. apply firstn_map.
Qed.

(** C6: a request that [handleAskQuestion] sends is the conversational
    one, and its [conversation_history] holds the first three entries of
    [qaHistory] at most (the latest three, the history being latest
    first), in that order, each as its question and answer. *)
Theorem conversation_history_bounded (clk : Clock) (srv : Server QAResponse)
    (arg : option jsstring) (w : World) (r : Request) :
  Sent r ∈ drop (length (log w)) (log (handleAskQuestion clk srv arg w)) →
  ∃ q context hist,
    req_path r = "/qa/conversation"
    ∧ req_body r = ConversationBody q context hist (lit "en")
    ∧ (length hist ≤ 3)%nat
    ∧ length hist = Nat.min 3 (length (qaHistory (store w)))
    ∧ (∀ i : nat, (i < 3)%nat →
         hist !! i
         = (λ qa, mkHistoryItem (question qa) (answer qa))
             <$> qaHistory (store w) !! i).
Proof.
  unfold handleAskQuestion.
  destruct (negb (str_truthy (trim _))).
  { cbn. rewrite drop_app_length, list_elem_of_singleton. discriminate. }
  destruct (negb (str_truthy (getQAContext _))).
  { cbn. rewrite drop_app_length, list_elem_of_singleton. discriminate. }
  cbn [setIsAsking store].
  match goal with
  | |- context [call ?e ?b srv] =>
      destruct (ApiFacts.call_shape e b srv) as (evs & o & Hcall & Hnone);
      rewrite Hcall
  end.
  pose proof (conversationHistory_window (qaHistory (store w)))
    as (Hle & Hlen & Hidx & _).
  assert (Hsent : ∀ tail : list Event,
             (∀ r', Sent r' ∉ tail) →
             Sent r ∈ Sent (request_of ConversationalQA
                              (ConversationBody
                                 (default (currentQuestion (store w)) arg)
                                 (getQAContext (store w))
                                 (conversationHistory (qaHistory (store w)))
                                 (lit "en"))) :: evs ++ tail →
             r = request_of ConversationalQA
                   (ConversationBody
                      (default (currentQuestion (store w)) arg)
                      (getQAContext (store w))
                      (conversationHistory (qaHistory (store w)))
                      (lit "en"))).
  { intros tail Htail [Heq|Hin]%elem_of_cons; [congruence|].
    apply elem_of_app in Hin as [Hin|Hin]; [by apply Hnone in Hin|].
    by apply Htail in Hin. }
  intros Hin.
  assert (Hr : r = request_of ConversationalQA
                   (ConversationBody
                      (default (currentQuestion (store w)) arg)
                      (getQAContext (store w))
                      (conversationHistory (qaHistory (store w)))
                      (lit "en"))).
  { destruct o as [d|err|]; cbn in Hin; rewrite ?drop_app_length in Hin.
    - apply (Hsent [ToastSuccess (lit "Question answered!")]).
      + intros r'. rewrite list_elem_of_singleton. discriminate.
      + rewrite <- app_assoc in Hin. rewrite drop_app_length in Hin.
        exact Hin.
    - apply (Hsent [ToastError (lit "Failed to get answer. Please try again.")]).
      + intros r'. rewrite list_elem_of_singleton. discriminate.
      + rewrite <- app_assoc in Hin. rewrite drop_app_length in Hin.
        exact Hin.
    - apply (Hsent []).
      + intros r' Hr'. inversion Hr'.
      + rewrite app_nil_r. exact Hin. }
  subst r. eexists _, _, _. cbn [req_path req_body request_of endpoint_path].
  split; [reflexivity|]. split; [reflexivity|]. auto.
Qed.

Lemma conversation_history_of_sample :
  ∃ q context hist,
    req_path (request_of ConversationalQA
                (ConversationBody (lit "why?") (lit "Chunks overlap.")
                   [mkHistoryItem (lit "q4") (lit "a4");
                    mkHistoryItem (lit "q3") (lit "a3");
                    mkHistoryItem (lit "q2") (lit "a2")] (lit "en")))
    = "/qa/conversation"
    ∧ req_body (request_of ConversationalQA
                  (ConversationBody (lit "why?") (lit "Chunks overlap.")
                     [mkHistoryItem (lit "q4") (lit "a4");
                      mkHistoryItem (lit "q3") (lit "a3");
                      mkHistoryItem (lit "q2") (lit "a2")] (lit "en")))
      = ConversationBody q context hist (lit "en")
    ∧ (length hist ≤ 3)%nat
    ∧ length hist = Nat.min 3 (length (qaHistory (store sampleWorld)))
    ∧ (∀ i : nat, (i < 3)%nat →
         hist !! i
         = (λ qa, mkHistoryItem (question qa) (answer qa))
             <$> qaHistory (store sampleWorld) !! i).
Proof.
  apply (conversation_history_bounded sampleClock Silent None sampleWorld).
  vm_compute. apply list_elem_of_here.
Defined.

End QAFacts.

(** ** The chunker *)

Module ChunkerFacts.

Import Chunker.

Local Open Scope nat_scope.

Section Reconstruction.
Context {A : Type}.
Variable is_break : A → bool.
Variable tolerance : nat.
Variables (budget overlap : nat).
Hypothesis overlap_lt_budget : overlap < budget.

(** A break that is found lies among the [n] cuts tried from [p] down. *)
Lemma nearest_break_range (T : list A) (n p q : nat) :
  nearest_break is_break T n p = Some q → q ≤ p ∧ p < q + n.
Proof.
  revert p. induction n as [|n IH]; intros p; cbn; [done|].
  destruct (break_before is_break T p); [intros [= ->]; lia|].
  destruct p as [|p]; [done|].
  intros Hq. apply IH in Hq. lia.
Qed.

(** The chunk end lies past the previous end, within the budget and
    within the text. *)
Lemma select_boundary_range (T : list A) (start prev_end : nat) :
  start ≤ prev_end → prev_end < length T → prev_end < start + budget →
  let e := select_boundary is_break tolerance budget T start prev_end in
  prev_end < e ∧ e ≤ start + budget ∧ e ≤ length T.
Proof.
  intros Hs Hp Hb. cbn zeta. unfold select_boundary.
  destruct (Nat.leb_spec (length T) (Nat.min (start + budget) (length T)))
    as [Hlast|Hmore]; [lia|].
  destruct (nearest_break _ _ _ _) as [q|] eqn:Hq; [|lia].
  apply nearest_break_range in Hq. lia.
Qed.

Lemma slice_drop (T : list A) (a b c : nat) :
  a ≤ b → b ≤ c → drop (b - a) (slice T a c) = slice T b c.
Proof.
  intros Hab Hbc. unfold slice.
  replace (c - a) with ((b - a) + (c - b)) by lia.
  rewrite <- take_drop_commute, drop_drop.
  replace (a + (b - a)) with b by lia.
  done.
Qed.

Lemma slice_then_rest (T : list A) (b c : nat) :
  b ≤ c → slice T b c ++ drop c T = drop b T.
Proof.
  intros Hbc. unfold slice.
  replace (drop c T) with (drop (c - b) (drop b T)).
  - apply take_drop.
  - rewrite drop_drop. f_equal. lia.
Qed.

Lemma slice_to_end (T : list A) (b c : nat) :
  length T ≤ c → slice T b c = drop b T.
Proof.
  intros Hc. unfold slice. apply take_ge. rewrite length_drop. lia.
Qed.

(** Chunking from a state of the loop gives back the text past the
    previous end. *)
Lemma chunk_from_reconstructs (fuel : nat) (T : list A)
    (start prev_end idx : nat) :
  start ≤ prev_end → prev_end < length T → prev_end < start + budget →
  length T - prev_end ≤ fuel →
  reconstruct
    (chunk_from is_break tolerance budget overlap fuel T start prev_end idx)
  = drop prev_end T.
Proof.
  revert start prev_end idx.
  induction fuel as [|fuel IH]; intros start prev_end idx Hs Hp Hb Hfuel;
    [lia|].
  cbn [chunk_from].
  pose proof (select_boundary_range T start prev_end Hs Hp Hb) as (He1 & He2 & He3).
  set (e := select_boundary is_break tolerance budget T start prev_end) in *.
  destruct (Nat.leb_spec (length T) e) as [Hend|Hmore].
  - unfold reconstruct. cbn. rewrite app_nil_r.
    rewrite slice_drop by lia. apply slice_to_end. lia.
  - unfold reconstruct in *. cbn [map concat overlap_with_previous span].
    rewrite IH by lia.
    rewrite slice_drop by lia. apply slice_then_rest. lia.
Qed.

(** Every chunk is within the budget, and its overlap is shorter than
    the chunk and no more than the configured overlap. *)
Lemma chunk_from_sizes (fuel : nat) (T : list A) (start prev_end idx : nat) :
  start ≤ prev_end → prev_end < length T → prev_end < start + budget →
  prev_end ≤ start + overlap →
  Forall (λ c, length (span c) ≤ budget
               ∧ overlap_with_previous c < length (span c)
               ∧ overlap_with_previous c ≤ overlap)
    (chunk_from is_break tolerance budget overlap fuel T start prev_end idx).
Proof.
  revert start prev_end idx.
  induction fuel as [|fuel IH]; intros start prev_end idx Hs Hp Hb Ho;
    [constructor|].
  cbn [chunk_from].
  pose proof (select_boundary_range T start prev_end Hs Hp Hb) as (He1 & He2 & He3).
  set (e := select_boundary is_break tolerance budget T start prev_end) in *.
  assert (Hc : length (slice T start e) = e - start).
  { unfold slice. rewrite length_take, length_drop. lia. }
  destruct (Nat.leb_spec (length T) e) as [Hend|Hmore].
  - constructor; [cbn; lia|constructor].
  - constructor; [cbn; lia|]. apply IH; lia.
Qed.

(** The ordinals count up from the first one. *)
Lemma chunk_from_indices (fuel : nat) (T : list A) (start prev_end idx : nat) :
  map index
    (chunk_from is_break tolerance budget overlap fuel T start prev_end idx)
  = seq idx
      (length (chunk_from is_break tolerance budget overlap fuel T start
                 prev_end idx)).
Proof.
  revert start prev_end idx.
  induction fuel as [|fuel IH]; intros start prev_end idx; [done|].
  cbn [chunk_from]. destruct (_ <=? _); [done|].
  cbn. f_equal. apply IH.
Qed.

End Reconstruction.

(** C8: for a non-empty text and an overlap smaller than the budget, the
    chunker returns chunks, numbered in order, from which the text is got
    back exactly by dropping each chunk's overlap with the one before it
    and concatenating; the same (text, budget, overlap) gives the same
    chunks, so the same count and the same boundaries. *)
Theorem chunks_reconstruct_text {A : Type} (is_break : A → bool)
    (tolerance budget overlap : nat) (T : list A) :
  T ≠ [] → overlap < budget →
  ∃ cs : list (Chunk A),
    chunk_text is_break tolerance budget overlap T = inr cs
    ∧ reconstruct cs = T
    ∧ map index cs = seq 0 (length cs)
    ∧ (∀ (T' : list A) (budget' overlap' : nat) (cs' : list (Chunk A)),
         (T', budget', overlap') = (T, budget, overlap) →
         chunk_text is_break tolerance budget' overlap' T' = inr cs' →
         length cs' = length cs
         ∧ boundaries_from 0 cs' = boundaries_from 0 cs).
Proof.
  intros Hne Hlt. destruct T as [|a T]; [done|].
  eexists. split; [reflexivity|]. split; [|split].
  - rewrite (chunk_from_reconstructs is_break tolerance budget overlap Hlt);
      cbn [length]; [done|lia..].
  - apply chunk_from_indices.
  - intros T' budget' overlap' cs' [= -> -> ->] [= <-]. done.
Qed.

(** The spec's scenario, with words as units and no break in reach:
    10,000 words, budget 1000, overlap 200 give 13 chunks. *)
Example ten_thousand_words :
  (λ r, match r with inr cs => Some (length cs) | inl _ => None end)
    (chunk_text (λ _ : unit, false) 50 1000 200 (replicate (100 * 100) ()))
  = Some 13.
Proof. vm_compute. reflexivity. Qed.

(** A text shorter than the budget is one chunk with no overlap. *)
Lemma short_text_one_chunk {A : Type} (is_break : A → bool)
    (tolerance budget overlap : nat) (T : list A) :
  T ≠ [] → length T ≤ budget →
  chunk_text is_break tolerance budget overlap T = inr [mkChunk 0 T 0].
Proof.
  intros Hne Hlen. destruct T as [|a T]; [done|].
  unfold chunk_text. cbn [length chunk_from].
  unfold select_boundary.
  replace (Nat.min (0 + budget) (length (a :: T))) with (length (a :: T))
    by (cbn [length] in *; lia).
  rewrite Nat.leb_refl. cbn [length] in *. rewrite Nat.leb_refl.
  unfold slice. cbn [drop]. rewrite Nat.sub_0_r.
  rewrite (take_ge (a :: T)) by (cbn; lia). done.
Qed.

Lemma chunks_reconstruct_sample :
  ∃ cs : list (Chunk nat),
    chunk_text (λ n, n =? 0) 2 4 1 [5; 0; 7; 8; 9; 0; 3; 4; 6; 2] = inr cs
    ∧ reconstruct cs = [5; 0; 7; 8; 9; 0; 3; 4; 6; 2]
    ∧ map index cs = seq 0 (length cs)
    ∧ (∀ (T' : list nat) (budget' overlap' : nat) (cs' : list (Chunk nat)),
         (T', budget', overlap') = ([5; 0; 7; 8; 9; 0; 3; 4; 6; 2], 4, 1) →
         chunk_text (λ n, n =? 0) 2 budget' overlap' T' = inr cs' →
         length cs' = length cs
         ∧ boundaries_from 0 cs' = boundaries_from 0 cs).
Proof.
  apply (chunks_reconstruct_text (λ n, n =? 0) 2 4 1
           [5; 0; 7; 8; 9; 0; 3; 4; 6; 2]).
  - discriminate.
  - lia.
Defined.

End ChunkerFacts.

(** ** Input validation: [trim], the URL pattern, [hasValidInput] *)

Module ValidationFacts.

Lemma trimStart_split (s : jsstring) :
  ∃ l, s = l ++ trimStart s ∧ blank l.
Proof.
  induction s as [|c s (l & Hs & Hl)].
  { exists []. split; [done|constructor]. }
  cbn. destruct (strippable c) eqn:Hc.
  - exists (c :: l). split; [cbn; by f_equal|by constructor].
  - exists []. split; [done|constructor].
Qed.

Lemma trimStart_head (s : jsstring) (c : N) :
  head (trimStart s) = Some c → strippable c = false.
Proof.
  induction s as [|d s IH]; [done|]. cbn.
  destruct (strippable d) eqn:Hd; [exact IH|]. by intros [= <-].
Qed.

Lemma trimStart_blank (l s : jsstring) :
  blank l → trimStart (l ++ s) = trimStart s.
Proof.
  induction 1 as [|c l Hc _ IH]; [done|]. cbn. by rewrite Hc.
Qed.

Lemma trimStart_nil_iff (s : jsstring) : trimStart s = [] ↔ blank s.
Proof.
  split.
  - intros Hs. destruct (trimStart_split s) as (l & Heq & Hl).
    rewrite Hs, app_nil_r in Heq. by subst.
  - intros Hb. rewrite <- (app_nil_r s). by rewrite trimStart_blank.
Qed.

Lemma trimStart_fixed (s : jsstring) (c : N) :
  head s = Some c → strippable c = false → trimStart s = s.
Proof. destruct s as [|d s]; [done|]. cbn. by intros [= ->] ->. Qed.

Lemma blank_rev (s : jsstring) : blank s ↔ blank (rev s).
Proof.
  unfold blank. split; intros H; [by apply List.Forall_rev|].
  rewrite <- (rev_involutive s). by apply List.Forall_rev.
Qed.

Lemma head_rev_last (s : jsstring) : head (rev s) = last s.
Proof.
  induction s as [|c s IH] using rev_ind; [done|].
  by rewrite rev_app_distr, last_snoc.
Qed.

Lemma trim_nil_iff (s : jsstring) : trim s = [] ↔ blank s.
Proof.
  unfold trim, trimEnd. split.
  - intros Hs. destruct (trimStart_split s) as (l & Heq & Hl).
    assert (Hb : blank (trimStart s)).
    { apply blank_rev, trimStart_nil_iff.
      by rewrite <- (rev_involutive (trimStart _)), Hs. }
    rewrite Heq. by apply Forall_app.
  - intros Hb. apply trimStart_nil_iff in Hb. by rewrite Hb.
Qed.

Lemma trim_parts (s : jsstring) :
  (∃ l r, s = l ++ trim s ++ r ∧ blank l ∧ blank r)
  ∧ (∀ c, head (trim s) = Some c → strippable c = false)
  ∧ (∀ c, last (trim s) = Some c → strippable c = false).
Proof.
  unfold trim, trimEnd.
  destruct (trimStart_split s) as (l & Hl & Hbl).
  destruct (trimStart_split (rev (trimStart s))) as (r & Hr & Hbr).
  set (t := trimStart (rev (trimStart s))) in *.
  assert (Hmid : trimStart s = rev t ++ rev r).
  { by rewrite <- rev_app_distr, <- Hr, rev_involutive. }
  split; [|split].
  - exists l, (rev r). split; [by rewrite <- Hmid|].
    split; [done|by apply (proj1 (blank_rev r))].
  - intros c Hc.
    destruct (rev t) as [|d t'] eqn:Ht; [done|]. cbn in Hc.
    injection Hc as ->.
    apply (trimStart_head s). by rewrite Hmid.
  - intros c Hc. rewrite <- head_rev_last, rev_involutive in Hc.
    by apply (trimStart_head (rev (trimStart s))).
Qed.

(** [trim] takes away exactly the white space at the two ends: the
    string is some white space, then the trimmed string, then some white
    space, and the trimmed string neither starts nor ends with a white
    space unit; trimming again changes nothing. *)
Theorem trim_spec (s : jsstring) :
  (∃ l r, s = l ++ trim s ++ r ∧ blank l ∧ blank r)
  ∧ (∀ c, head (trim s) = Some c → strippable c = false)
  ∧ (∀ c, last (trim s) = Some c → strippable c = false)
  ∧ trim (trim s) = trim s.
Proof.
  destruct (trim_parts s) as (Hparts & Hhead & Hlast).
  split; [done|]. split; [done|]. split; [done|].
  destruct (trim s) as [|c t] eqn:Ht; [done|].
  unfold trim at 1. rewrite (trimStart_fixed _ c); [|done|by apply Hhead].
  unfold trimEnd.
  destruct (rev (c :: t)) as [|d t'] eqn:Hr.
  { apply (f_equal (@length N)) in Hr. by rewrite length_rev in Hr. }
  rewrite (trimStart_fixed _ d); [|done|].
  - by rewrite <- Hr, rev_involutive.
  - apply Hlast. by rewrite <- head_rev_last, Hr.
Qed.

Lemma trim_blank_ends (l s r : jsstring) :
  blank l → blank r → trim (l ++ s ++ r) = trim s.
Proof.
  intros Hl Hr. unfold trim. rewrite trimStart_blank by done.
  destruct (trimStart_split s) as (l' & Hs & Hl').
  destruct (decide (trimStart s = [])) as [Hnil|Hne].
  - rewrite Hnil. apply trimStart_nil_iff in Hnil.
    assert (Hall : trimStart (s ++ r) = []).
    { apply trimStart_nil_iff. by apply Forall_app. }
    by rewrite Hall.
  - assert (Hsr : trimStart (s ++ r) = trimStart s ++ r).
    { rewrite Hs at 1. rewrite <- app_assoc, trimStart_blank by done.
      destruct (trimStart s) as [|c t] eqn:Ht; [done|].
      apply (trimStart_fixed _ c); [done|].
      apply (trimStart_head s). by rewrite Ht. }
    rewrite Hsr. unfold trimEnd. rewrite rev_app_distr.
    rewrite trimStart_blank; [done|by apply (proj1 (blank_rev r))].
Qed.

Lemma trim_length (s : jsstring) : (length (trim s) ≤ length s)%nat.
Proof.
  destruct (trim_parts s) as ((l & r & Hs & _) & _).
  rewrite Hs at 2. rewrite !length_app. lia.
Qed.

(** X1: on the text tab only the trimmed text counts: white space put
    before or after the text changes nothing, and a text of ten code
    units or fewer is never valid. *)
Theorem text_validity (url_parses : jsstring → bool) (s : AppStore)
    (l r : jsstring) :
  activeTab s = TabText →
  blank l → blank r →
  hasValidInput url_parses
    (updateInputContent s (SetText (l ++ text (inputContent s) ++ r)))
  = hasValidInput url_parses s
  ∧ ((length (text (inputContent s)) ≤ 10)%nat →
     hasValidInput url_parses s = false).
Proof.
  intros Htab Hl Hr. unfold hasValidInput.
  cbn [updateInputContent withInputContent activeTab inputContent text].
  rewrite Htab. rewrite trim_blank_ends by done. split; [done|].
  intros Hlen. apply Nat.ltb_ge.
  pose proof (trim_length (text (inputContent s))). lia.
Qed.

Lemma text_validity_padded :
  hasValidInput (λ _, true)
    (updateInputContent typedStore
       (SetText ([32; 10]%N ++ text (inputContent typedStore) ++ [9]%N)))
  = hasValidInput (λ _, true) typedStore
  ∧ ((length (text (inputContent typedStore)) ≤ 10)%nat →
     hasValidInput (λ _, true) typedStore = false).
Proof.
  apply (text_validity (λ _, true) typedStore [32; 10]%N [9]%N).
  - reflexivity.
  - repeat constructor.
  - repeat constructor.
Defined.

Lemma strip_prefix_Some (p s r : jsstring) :
  strip_prefix p s = Some r ↔ s = p ++ r.
Proof.
  revert s. induction p as [|c p IH]; intros s; cbn.
  - split; [by intros [= ->]|by intros ->].
  - destruct s as [|d s]; [done|].
    destruct (N.eqb_spec c d) as [->|Hne].
    + rewrite IH. split; [by intros ->|by intros [= ->]].
    + split; [done|]. intros [= ? ?]. congruence.
Qed.

Lemma alternatives_true (alts : list jsstring) (rest : jsstring → bool)
    (s : jsstring) :
  alternatives alts rest s = true
  ↔ ∃ p r, p ∈ alts ∧ s = p ++ r ∧ rest r = true.
Proof.
  unfold alternatives. rewrite existsb_exists. split.
  - intros (p & Hin & Hm). destruct (strip_prefix p s) as [r|] eqn:E; [|done].
    exists p, r. split; [by apply list_elem_of_In|].
    split; [by apply strip_prefix_Some|done].
  - intros (p & r & Hin & Hs & Hr). exists p. split; [by apply list_elem_of_In|].
    apply strip_prefix_Some in Hs. by rewrite Hs.
Qed.

Lemma isYouTubeUrl_shape (u : jsstring) :
  isYouTubeUrl u = true
  ↔ ∃ scheme www host c rest,
      scheme ∈ [lit "https://"; lit "http://"; []]
      ∧ www ∈ [lit "www."; []]
      ∧ host ∈ [lit "youtube.com"; lit "youtu.be"]
      ∧ is_line_terminator c = false
      ∧ u = scheme ++ www ++ host ++ lit "/" ++ c :: rest.
Proof.
  unfold isYouTubeUrl. rewrite alternatives_true. split.
  - intros (scheme & r1 & Hscheme & -> & H1).
    apply alternatives_true in H1 as (www & r2 & Hwww & -> & H2).
    apply alternatives_true in H2 as (host & r3 & Hhost & -> & H3).
    apply alternatives_true in H3 as (slash & r4 & Hslash & -> & H4).
    apply list_elem_of_singleton in Hslash as ->.
    destruct r4 as [|c rest]; [done|]. cbn in H4.
    exists scheme, www, host, c, rest.
    repeat (split; [done|]). split; [by destruct (is_line_terminator c)|done].
  - intros (scheme & www & host & c & rest & Hscheme & Hwww & Hhost & Hc & ->).
    exists scheme, (www ++ host ++ lit "/" ++ c :: rest).
    split; [done|]. split; [done|].
    apply alternatives_true. exists www, (host ++ lit "/" ++ c :: rest).
    split; [done|]. split; [done|].
    apply alternatives_true. exists host, (lit "/" ++ c :: rest).
    split; [done|]. split; [done|].
    apply alternatives_true. exists (lit "/"), (c :: rest).
    split; [apply list_elem_of_here|]. split; [done|].
    cbn. by rewrite Hc.
Qed.

(** X2: [isYouTubeUrl] accepts exactly the strings made of an optional
    [http://] or [https://], an optional [www.], then [youtube.com] or
    [youtu.be], a slash and at least one further code unit that is not a
    line terminator; nothing may come before, anything may follow. *)
Theorem isYouTubeUrl_accepts (u : jsstring) :
  isYouTubeUrl u = true
  ↔ ∃ scheme www host c rest,
      scheme ∈ [lit "https://"; lit "http://"; []]
      ∧ www ∈ [lit "www."; []]
      ∧ host ∈ [lit "youtube.com"; lit "youtu.be"]
      ∧ is_line_terminator c = false
      ∧ u = scheme ++ www ++ host ++ lit "/" ++ c :: rest.
Proof. apply isYouTubeUrl_shape. Qed.

Lemma isYouTubeUrl_not_blank (u : jsstring) :
  isYouTubeUrl u = true → trim u ≠ [].
Proof.
  intros (scheme & www & host & c & rest & Hs & Hw & Hh & _ & ->)%isYouTubeUrl_shape
    Hnil%trim_nil_iff.
  repeat (apply elem_of_cons in Hs as [->|Hs]);
    repeat (apply elem_of_cons in Hw as [->|Hw]);
    repeat (apply elem_of_cons in Hh as [->|Hh]);
    try (by apply elem_of_nil in Hs);
    try (by apply elem_of_nil in Hw);
    try (by apply elem_of_nil in Hh);
    by inversion Hnil.
Qed.

(** X3: on the YouTube tab the input is valid exactly when the URL
    matches the pattern: the check that the trimmed URL is not empty never
    decides, a matching URL is never blank. *)
Theorem youtube_validity (url_parses : jsstring → bool) (s : AppStore) :
  activeTab s = TabYoutube →
  hasValidInput url_parses s = isYouTubeUrl (youtubeUrl (inputContent s)).
Proof.
  intros Htab. unfold hasValidInput. rewrite Htab.
  destruct (isYouTubeUrl _) eqn:Hy; [|apply andb_false_r].
  rewrite andb_true_r. apply Nat.ltb_lt.
  apply isYouTubeUrl_not_blank in Hy.
  destruct (trim _); [done|cbn; lia].
Qed.

Lemma youtube_validity_sample :
  hasValidInput (λ _, false)
    (setActiveTab
       (updateInputContent initialState
          (SetYoutubeUrl (lit "https://youtu.be/abc")))
       TabYoutube)
  = isYouTubeUrl
      (youtubeUrl
         (inputContent
            (setActiveTab
               (updateInputContent initialState
                  (SetYoutubeUrl (lit "https://youtu.be/abc")))
               TabYoutube))).
Proof.
  apply (youtube_validity (λ _, false)
           (setActiveTab
              (updateInputContent initialState
                 (SetYoutubeUrl (lit "https://youtu.be/abc")))
              TabYoutube)).
  reflexivity.
Defined.

End ValidationFacts.

(** ** Sequences of store actions *)

Module StoreRuns.

Lemma storeAll_snoc (s : AppStore) (rs : list SummaryResult)
    (r : SummaryResult) :
  storeAll s (rs ++ [r]) = setSummaryResults (storeAll s rs) r.
Proof. unfold storeAll. by rewrite foldl_app. Qed.

Lemma addAll_frame (xs : list QAArgs) (s : AppStore) :
  clearQAHistory (addAll s xs) = clearQAHistory s.
Proof.
  revert s. induction xs as [|x xs IH]; intros s; [done|].
  cbn [addAll foldl]. unfold addAll in IH. by rewrite IH.
Qed.

Lemma lookup_rev {A} (l : list A) (i : nat) :
  (i < length l)%nat → rev l !! i = l !! (length l - S i)%nat.
Proof.
  induction l as [|a l IH]; cbn [length rev]; [lia|]. intros Hi.
  destruct (decide (i < length l)%nat) as [Hlt|Hge].
  - rewrite lookup_app_l by (by rewrite length_rev).
    rewrite IH by done.
    replace (S (length l) - S i)%nat with (S (length l - S i)) by lia. done.
  - rewrite lookup_app_r by (rewrite length_rev; lia).
    rewrite length_rev.
    replace (i - length l)%nat with 0%nat by lia.
    replace (S (length l) - S i)%nat with 0%nat by lia. done.
Qed.

(** X4: after any non-empty run of [setSummaryResults] calls the current
    result is the last one stored and the history holds the ten latest
    results, newest first: the results of the run in reverse, then what
    was there before, cut at ten. *)
Theorem history_after_runs (rs : list SummaryResult) (s : AppStore) :
  rs ≠ [] →
  summaryResults (storeAll s rs) = last rs
  ∧ summaryHistory (storeAll s rs) = take 10 (rev rs ++ summaryHistory s)
  ∧ (length (summaryHistory (storeAll s rs)) ≤ 10)%nat.
Proof.
  intros Hne. split; [|split].
  - destruct rs as [|r rs _] using rev_ind; [done|].
    by rewrite storeAll_snoc, last_snoc.
  - by apply StoreFacts.summaryHistory_storeAll.
  - rewrite StoreFacts.summaryHistory_storeAll by done.
    rewrite length_take. lia.
Qed.

Lemma history_after_two_runs :
  summaryResults
    (storeAll initialState
       [QASection.sampleSummary; InputSection.shownSummary])
  = last [QASection.sampleSummary; InputSection.shownSummary]
  ∧ summaryHistory
      (storeAll initialState
         [QASection.sampleSummary; InputSection.shownSummary])
    = take 10 (rev [QASection.sampleSummary; InputSection.shownSummary]
               ++ summaryHistory initialState)
  ∧ (length
       (summaryHistory
          (storeAll initialState
             [QASection.sampleSummary; InputSection.shownSummary]))
     ≤ 10)%nat.
Proof.
  apply (history_after_runs
           [QASection.sampleSummary; InputSection.shownSummary] initialState).
  discriminate.
Defined.

(** X5: a run of [addQAInteraction] calls touches nothing but
    [qaHistory], which gets the new entries in front, the last added
    first; so clearing the history afterwards gives the state that
    clearing it before would have given. *)
Theorem additions_then_clear (xs : list QAArgs) (s : AppStore) :
  qaHistory (addAll s xs) = rev (map entryOf xs) ++ qaHistory s
  ∧ clearQAHistory (addAll s xs) = clearQAHistory s
  ∧ (∀ (i : nat) (x : QAArgs), xs !! i = Some x →
       qaHistory (addAll s xs) !! (length xs - 1 - i)%nat = Some (entryOf x)).
Proof.
  split; [apply StoreFacts.qaHistory_addAll|].
  split; [apply addAll_frame|].
  intros i x Hx. rewrite StoreFacts.qaHistory_addAll.
  pose proof (lookup_lt_Some _ _ _ Hx) as Hlt.
  rewrite lookup_app_l by (rewrite length_rev, length_map; lia).
  rewrite lookup_rev by (rewrite length_map; lia).
  rewrite length_map.
  replace (length xs - S (length xs - 1 - i))%nat with i by lia.
  change (map entryOf xs) with (entryOf <$> xs).
  by rewrite list_lookup_fmap, Hx.
Qed.

(** X6: settings updates compose as one update with the merged
    argument, the later keys winning; an update with no key changes
    nothing, and repeating an update changes nothing more. *)
Theorem updateSummarySettings_compose (s : AppStore)
    (a b : gmap string value) :
  updateSummarySettings (updateSummarySettings s a) b
  = updateSummarySettings s (spread2 a b)
  ∧ updateSummarySettings s ∅ = s
  ∧ updateSummarySettings (updateSummarySettings s a) a
    = updateSummarySettings s a.
Proof.
  unfold updateSummarySettings, spread2. cbn. split; [|split].
  - f_equal. by rewrite (assoc_L (∪)).
  - destruct s. cbn. f_equal. by rewrite (left_id_L ∅ (∪)).
  - f_equal. by rewrite (assoc_L (∪)), (idemp_L (∪)).
Qed.

End StoreRuns.

(** ** Asking questions: what a run does *)

Module AskFacts.

Import QASection Suggestions.

Lemma str_truthy_false (s : jsstring) : str_truthy s = false ↔ s = [].
Proof. by destruct s. Qed.

Lemma str_truthy_true (s : jsstring) : str_truthy s = true ↔ s ≠ [].
Proof. by destruct s. Qed.

Lemma not_blank_truthy (q : jsstring) :
  ¬ blank q ↔ str_truthy (trim q) = true.
Proof. by rewrite str_truthy_true, ValidationFacts.trim_nil_iff. Qed.

(** A run that gets past the two guards, by how the request settles. *)
Lemma ask_run (clk : Clock) (srv : Server QAResponse)
    (arg : option jsstring) (w : World) :
  str_truthy (trim (default (currentQuestion (store w)) arg)) = true →
  str_truthy (getQAContext (store w)) = true →
  handleAskQuestion clk srv arg w
  = match adapter apiClient srv with
    | Resolved r =>
        {| store :=
             setCurrentQuestion
               (addQAInteraction (store w) clk
                  (default (currentQuestion (store w)) arg)
                  (r_answer r) (r_confidence r) (r_supporting_text r)) [];
           isAsking := false;
           log := (log w ++ [Sent (askRequest arg w)])
                  ++ [ToastSuccess (lit "Question answered!")] |}
    | Rejected e =>
        {| store := store w;
           isAsking := false;
           log := (log w ++ Sent (askRequest arg w)
                     :: (interceptResponse (D:=QAResponse) (Rejected e)).1)
                  ++ [ToastError (lit "Failed to get answer. Please try again.")] |}
    | Pending =>
        {| store := store w;
           isAsking := true;
           log := log w ++ [Sent (askRequest arg w)] |}
    end.
Proof.
  intros Hq Hctx. unfold handleAskQuestion. rewrite Hq, Hctx. cbn [negb].
  unfold call.
  change (req_config (request_of ConversationalQA _)) with apiClient.
  destruct (adapter apiClient srv) as [r|e|]; [done| |done].
  by destruct (ApiFacts.intercept_events (D:=QAResponse) e)
    as [(_ & ->)|(msg & _ & ->)].
Qed.

Lemma adapter_apiClient_settles {D} (srv : Server D) :
  adapter apiClient srv ≠ Pending.
Proof. by apply ApiFacts.adapter_settles. Qed.

(** What the interceptor shows is never a request. *)
Lemma intercepted_no_request {D} (e : AxiosError) (a b : list Event) :
  requestsSent (a ++ (interceptResponse (D:=D) (Rejected e)).1 ++ b)
  = requestsSent (a ++ b).
Proof.
  unfold requestsSent.
  by destruct (ApiFacts.intercept_events (D:=D) e)
    as [(_ & ->)|(msg & _ & ->)]; rewrite !List.filter_app.
Qed.

Lemma asked_app (w w' : World) (evs : list Event) :
  log w' = log w ++ evs → asked w w' = evs.
Proof. unfold asked. intros ->. apply drop_app_length. Qed.

(** X7: [handleAskQuestion] sends exactly one request, the
    conversational one, when the question is not blank and the context is
    not empty, and none otherwise. *)
Theorem ask_sends_one_or_none (clk : Clock) (srv : Server QAResponse)
    (arg : option jsstring) (w : World) :
  let q := default (currentQuestion (store w)) arg in
  let w' := handleAskQuestion clk srv arg w in
  (¬ blank q ∧ getQAContext (store w) ≠ [] →
     requestsSent (asked w w') = [Sent (askRequest arg w)])
  ∧ (blank q ∨ getQAContext (store w) = [] →
     requestsSent (asked w w') = []).
Proof.
  cbn zeta. split.
  - intros [Hq%not_blank_truthy Hctx%str_truthy_true].
    rewrite (ask_run clk srv arg w Hq Hctx).
    pose proof (adapter_apiClient_settles srv) as Hs.
    destruct (adapter apiClient srv) as [r|e|]; [| |done].
    + by rewrite (asked_app w _ [Sent (askRequest arg w);
                                  ToastSuccess (lit "Question answered!")])
        by (cbn; by rewrite <- app_assoc).
    + rewrite (asked_app w _
                 ([Sent (askRequest arg w)]
                  ++ (interceptResponse (D:=QAResponse) (Rejected e)).1
                  ++ [ToastError (lit "Failed to get answer. Please try again.")]))
        by (cbn; by rewrite <- !app_assoc).
      by rewrite intercepted_no_request.
  - intros Hor. unfold handleAskQuestion.
    destruct (str_truthy (trim _)) eqn:Hq; cbn [negb].
    + destruct Hor as [Hb|Hctx].
      * apply not_blank_truthy in Hq. done.
      * rewrite Hctx. cbn [str_truthy length Nat.eqb negb].
        by rewrite (asked_app w _ [ToastError (lit "No content available for Q&A")]).
    + by rewrite (asked_app w _ [ToastError (lit "Please enter a question")]).
Qed.






End AskFacts.

(** ** Summarizing: requests and toasts *)

Module SummarizeFacts.

Import InputSection.

Lemma largeDocumentNotice_cases (w : World) :
  largeDocumentNotice w = w
  ∨ largeDocumentNotice w
    = emit (ToastPlain (lit "Large document detected. This may take several minutes."))
        (setProcessingStatus (lit "Processing large document - please wait...") w).
Proof.
  unfold largeDocumentNotice.
  destruct (activeTab (store w)); auto. destruct (_ && _); auto.
Qed.

Lemma summarizeCall_frame (s : AppStore) (b : bool) (st : Step) :
  summarizeCall (setCurrentStep (setLoading s b) st) = summarizeCall s.
Proof. done. Qed.

(** A run with valid input, by how the transport settles the request:
    what it adds to the log and what it leaves in the store. *)
Lemma summarize_run (url_parses : jsstring → bool)
    (srv : Server SummaryResult) (w : World) (ep : Endpoint) (body : Body) :
  hasValidInput url_parses (store w) = true →
  summarizeCall (store w) = Some (ep, body) →
  ∃ pre,
    (pre = []
     ∨ pre = [ToastPlain (lit "Large document detected. This may take several minutes.")])
    ∧ match adapter (req_config (request_of ep body)) srv with
      | Resolved r =>
          added w (handleSummarize url_parses srv w)
          = pre ++ [Sent (request_of ep body);
                    ToastSuccess (lit "Summary generated successfully!")]
          ∧ store (handleSummarize url_parses srv w)
            = setLoading
                (setCurrentStep
                   (setSummaryResults
                      (setCurrentStep (setLoading (store w) true)
                         StepProcessing) r)
                   StepResults)
                false
      | Rejected e =>
          (∃ m2,
             added w (handleSummarize url_parses srv w)
             = pre ++ [Sent (request_of ep body)]
               ++ (interceptResponse (D:=SummaryResult) (Rejected e)).1
               ++ [ConsoleError (lit "Summarization error:"); ToastError m2])
          ∧ store (handleSummarize url_parses srv w)
            = setLoading
                (setCurrentStep
                   (setCurrentStep (setLoading (store w) true) StepProcessing)
                   StepInput)
                false
      | Pending => False
      end.
Proof.
  intros Hvalid Hcall. unfold handleSummarize. rewrite Hvalid. cbn [negb].
  set (w1 := setProcessingStatus _ _).
  assert (Hcall1 : summarizeCall (store w1) = Some (ep, body)) by exact Hcall.
  assert (Hlog1 : log w1 = log w) by done.
  assert (Hst1 : store w1
                 = setCurrentStep (setLoading (store w) true) StepProcessing)
    by done.
  clearbody w1.
  assert (Hpos : 0 < timeout (req_config (request_of ep body))).
  { rewrite ApiFacts.timeout_of_request. destruct ep; lia. }
  pose proof (ApiFacts.adapter_settles _ srv Hpos) as Hsettles.
  assert (Hbranch : ∀ w2 pre,
            store w2 = store w1 → log w2 = log w ++ pre →
            match adapter (req_config (request_of ep body)) srv with
            | Resolved r =>
                added w
                  (let '(evs, o) := call ep body srv in
                   match o with
                   | Resolved result => onSummarizeSuccess result (emits evs w2)
                   | Rejected e => onSummarizeError (ThrownAxios e) (emits evs w2)
                   | Pending => emits evs w2
                   end)
                = pre ++ [Sent (request_of ep body);
                          ToastSuccess (lit "Summary generated successfully!")]
                ∧ store
                    (let '(evs, o) := call ep body srv in
                     match o with
                     | Resolved result => onSummarizeSuccess result (emits evs w2)
                     | Rejected e => onSummarizeError (ThrownAxios e) (emits evs w2)
                     | Pending => emits evs w2
                     end)
                  = setLoading
                      (setCurrentStep
                         (setSummaryResults
                            (setCurrentStep (setLoading (store w) true)
                               StepProcessing) r)
                         StepResults)
                      false
            | Rejected e =>
                (∃ m2,
                   added w
                     (let '(evs, o) := call ep body srv in
                      match o with
                      | Resolved result => onSummarizeSuccess result (emits evs w2)
                      | Rejected e => onSummarizeError (ThrownAxios e) (emits evs w2)
                      | Pending => emits evs w2
                      end)
                   = pre ++ [Sent (request_of ep body)]
                     ++ (interceptResponse (D:=SummaryResult) (Rejected e)).1
                     ++ [ConsoleError (lit "Summarization error:");
                         ToastError m2])
                ∧ store
                    (let '(evs, o) := call ep body srv in
                     match o with
                     | Resolved result => onSummarizeSuccess result (emits evs w2)
                     | Rejected e => onSummarizeError (ThrownAxios e) (emits evs w2)
                     | Pending => emits evs w2
                     end)
                  = setLoading
                      (setCurrentStep
                         (setCurrentStep (setLoading (store w) true)
                            StepProcessing)
                         StepInput)
                      false
            | Pending => False
            end).
  { intros w2 pre Hst2 Hlog2. unfold call.
    destruct (adapter (req_config (request_of ep body)) srv) as [r|e|];
      [| |done].
    - cbn [interceptResponse]. split.
      + apply InputFacts.added_app. cbn -[lit].
        by rewrite Hlog2, <- !app_assoc.
      + cbn -[lit]. by rewrite Hst2, Hst1.
    - destruct (ApiFacts.interceptResponse_rejected (D:=SummaryResult) e)
        as [e' He'].
      destruct (interceptResponse (Rejected e)) as [evs o]. cbn [snd] in He'.
      subst o. cbn [fst].
      destruct (InputFacts.onSummarizeError_spec (ThrownAxios e')
                  (emits (Sent (request_of ep body) :: evs) w2))
        as (Hst & _ & m2 & Hlog).
      split.
      + exists m2. apply InputFacts.added_app. rewrite Hlog. cbn [emits log].
        by rewrite Hlog2, <- !app_assoc.
      + rewrite Hst. cbn [emits store]. by rewrite Hst2, Hst1. }
  destruct (largeDocumentNotice_cases w1) as [Hn|Hn]; rewrite Hn.
  - exists []. split; [by left|]. rewrite Hcall1.
    apply (Hbranch w1 []); [done|by rewrite app_nil_r].
  - eexists. split; [by right|].
    cbn [emit setProcessingStatus store]. rewrite Hcall1.
    apply Hbranch; [done|]. cbn -[lit]. by rewrite Hlog1.
Qed.

(** C5 as stated fails: the backend answers 200 with the body
    [{"summary": ""}] to a valid text input; the run stores that body and
    ends at 'results' with the success toast, so what is stored is not a
    full summary result, and no error was reported. *)
Lemma partial_body_stored :
  hasValidInput sampleUrlParses (store typedWorld) = true
  ∧ ¬ (completedFull typedWorld
         (handleSummarize sampleUrlParses
            (Answers 100 200 partialSummary (DataWith None)) typedWorld)
       ∨ failed typedWorld
           (handleSummarize sampleUrlParses
              (Answers 100 200 partialSummary (DataWith None)) typedWorld)).
Proof.
  split; [reflexivity|].
  intros [(r & Hr & [Hsum _] & _)|(_ & _ & _ & Hstep)].
  - vm_compute in Hr. injection Hr as <-. by apply Hsum.
  - vm_compute in Hstep. discriminate Hstep.
Qed.

(** C5, as the handler has it: a run of [handleSummarize] that gets past
    the input guard ends in one of two ways.  The request is fulfilled:
    the body of the server's answer is stored as it was received, whether
    or not it is a full summary result, in [summaryResults] and at the
    front of the history, the step is 'results' and no error is shown.
    Or the request fails: an error is shown, the stored results and the
    history are as before and the step is back at 'input'. *)
Theorem handleSummarize_all_or_nothing
    (url_parses : jsstring → bool) (srv : Server SummaryResult) (w : World) :
  hasValidInput url_parses (store w) = true →
  let w' := handleSummarize url_parses srv w in
  ((∃ latency status detail r,
      srv = Answers latency status r detail
      ∧ 200 ≤ status < 300
      ∧ summaryResults (store w') = Some r)
   ∧ completed w w'
   ∧ errorToasts (added w w') = 0%nat
   ∧ isLoading (store w') = false)
  ∨ (failed w w' ∧ isLoading (store w') = false).
Proof.
  intros Hvalid. cbn zeta.
  destruct (InputFacts.summarizeCall_valid url_parses (store w) Hvalid)
    as [[ep body] Hcall].
  destruct (summarize_run url_parses srv w ep body Hvalid Hcall)
    as (pre & Hpre & Hrun).
  pose proof (ApiFacts.call_resolved ep body srv) as Hres. unfold call in Hres.
  destruct (adapter (req_config (request_of ep body)) srv) as [r|e|];
    [| |done].
  - left. destruct Hrun as [Hadded Hstore].
    destruct (Hres r eq_refl) as (lat & st & det & -> & Hst).
    rewrite Hstore. split; [by exists lat, st, det, r|].
    split; [|split; [|done]].
    + exists r. by rewrite Hstore.
    + rewrite Hadded. by destruct Hpre as [-> | ->].
  - right. destruct Hrun as [(m2 & Hadded) Hstore].
    split; [|by rewrite Hstore].
    unfold failed. rewrite Hstore. split; [|done].
    exists m2. rewrite Hadded, !elem_of_app. right. right. right.
    apply list_elem_of_further, list_elem_of_here.
Qed.

Lemma handleSummarize_all_or_nothing_answered :
  ((∃ latency status detail r,
      Answers 100 200 shownSummary (DataWith None)
      = Answers latency status r detail
      ∧ 200 ≤ status < 300
      ∧ summaryResults
          (store
             (handleSummarize sampleUrlParses
                (Answers 100 200 shownSummary (DataWith None)) typedWorld))
        = Some r)
   ∧ completed typedWorld
       (handleSummarize sampleUrlParses
          (Answers 100 200 shownSummary (DataWith None)) typedWorld)
   ∧ errorToasts
       (added typedWorld
          (handleSummarize sampleUrlParses
             (Answers 100 200 shownSummary (DataWith None)) typedWorld))
     = 0%nat
   ∧ isLoading
       (store
          (handleSummarize sampleUrlParses
             (Answers 100 200 shownSummary (DataWith None)) typedWorld))
     = false)
  ∨ (failed typedWorld
       (handleSummarize sampleUrlParses
          (Answers 100 200 shownSummary (DataWith None)) typedWorld)
     ∧ isLoading
         (store
            (handleSummarize sampleUrlParses
               (Answers 100 200 shownSummary (DataWith None)) typedWorld))
       = false).
Proof.
  apply (handleSummarize_all_or_nothing sampleUrlParses
           (Answers 100 200 shownSummary (DataWith None)) typedWorld).
  reflexivity.
Defined.

Lemma sent_among (pre mid post : list Event) (r : Request) :
  (pre = [] ∨ ∃ m, pre = [ToastPlain m]) →
  requestsSent mid = [] → requestsSent post = [] →
  requestsSent (pre ++ [Sent r] ++ mid ++ post) = [Sent r].
Proof.
  unfold requestsSent. intros Hpre Hmid Hpost.
  rewrite !List.filter_app, Hmid, Hpost.
  by destruct Hpre as [-> |[m ->]].
Qed.

(** X11: with valid input [handleSummarize] sends exactly one request:
    a POST to the endpoint of the active tab, with a timeout of 900000 ms
    for files and 600000 ms otherwise. *)
Theorem summarize_sends_one_request (url_parses : jsstring → bool)
    (srv : Server SummaryResult) (w : World) :
  hasValidInput url_parses (store w) = true →
  ∃ r,
    requestsSent (added w (handleSummarize url_parses srv w)) = [Sent r]
    ∧ req_method r = POST
    ∧ req_path r
      = match activeTab (store w) with
        | TabText => "/summarize/text"
        | TabFiles => "/summarize/document"
        | TabUrl => "/summarize/url"
        | _ => "/summarize/youtube"
        end
    ∧ timeout (req_config r)
      = match activeTab (store w) with
        | TabFiles => 900000
        | _ => 600000
        end.
Proof.
  intros Hvalid.
  destruct (InputFacts.summarizeCall_valid url_parses (store w) Hvalid)
    as [[ep body] Hcall].
  destruct (summarize_run url_parses srv w ep body Hvalid Hcall)
    as (pre & Hpre & Hrun).
  assert (Hpre' : pre = [] ∨ ∃ m, pre = [ToastPlain m]).
  { destruct Hpre as [-> | ->]; [by left|right; by eexists]. }
  exists (request_of ep body). split.
  - destruct (adapter (req_config (request_of ep body)) srv) as [r|e|];
      [| |done].
    + destruct Hrun as [-> _].
      by apply (sent_among pre [] [ToastSuccess _]).
    + destruct Hrun as [(m2 & ->) _].
      apply sent_among; [done| |done].
      by destruct (ApiFacts.intercept_events (D:=SummaryResult) e)
        as [(_ & ->)|(msg & _ & ->)].
  - unfold summarizeCall in Hcall.
    destruct (activeTab (store w)); try done; by injection Hcall as <- <-.
Qed.

Lemma summarize_sends_one_request_for_text :
  ∃ r,
    requestsSent
      (added (mkWorld typedStore [] [])
         (handleSummarize sampleUrlParses Silent (mkWorld typedStore [] [])))
    = [Sent r]
    ∧ req_method r = POST
    ∧ req_path r
      = match activeTab (store (mkWorld typedStore [] [])) with
        | TabText => "/summarize/text"
        | TabFiles => "/summarize/document"
        | TabUrl => "/summarize/url"
        | _ => "/summarize/youtube"
        end
    ∧ timeout (req_config r)
      = match activeTab (store (mkWorld typedStore [] [])) with
        | TabFiles => 900000
        | _ => 600000
        end.
Proof.
  apply (summarize_sends_one_request sampleUrlParses Silent
           (mkWorld typedStore [] [])).
  reflexivity.
Defined.

(** X12: a summarization request that fails is reported twice, once by
    the response interceptor and once by the handler's [catch]; except
    for a 400 answer with a [null] body, where the interceptor throws
    before its toast and only the handler's toast is shown; a fulfilled
    request shows no error toast. *)
Theorem summarize_failure_toasts (url_parses : jsstring → bool)
    (srv : Server SummaryResult) (w : World) (ep : Endpoint) (body : Body) :
  hasValidInput url_parses (store w) = true →
  summarizeCall (store w) = Some (ep, body) →
  errorToasts (added w (handleSummarize url_parses srv w))
  = match adapter (req_config (request_of ep body)) srv with
    | Resolved _ => 0%nat
    | Rejected e =>
        if decide (response e = Some (400, NullData)) then 1%nat else 2%nat
    | Pending => 0%nat
    end.
Proof.
  intros Hvalid Hcall.
  destruct (summarize_run url_parses srv w ep body Hvalid Hcall)
    as (pre & Hpre & Hrun).
  destruct (adapter (req_config (request_of ep body)) srv) as [r|e|];
    [| |done].
  - destruct Hrun as [-> _]. by destruct Hpre as [-> | ->].
  - destruct Hrun as [(m2 & ->) _].
    destruct (ApiFacts.intercept_events (D:=SummaryResult) e)
      as [(Hnull & ->)|(msg & Hnot & ->)].
    + rewrite decide_True by done. by destruct Hpre as [-> | ->].
    + rewrite decide_False by done. by destruct Hpre as [-> | ->].
Qed.

Lemma summarize_failure_toasts_offline :
  errorToasts
    (added (mkWorld typedStore [] [])
       (handleSummarize sampleUrlParses Unreachable
          (mkWorld typedStore [] [])))
  = match adapter
            (req_config
               (request_of SummarizeText
                  (JsonBody (("text", VStr (lit "hello world!"))
                             :: settingsFields initialSettings))))
            (@Unreachable SummaryResult) with
    | Resolved _ => 0%nat
    | Rejected e =>
        if decide (response e = Some (400, NullData)) then 1%nat else 2%nat
    | Pending => 0%nat
    end.
Proof.
  apply (summarize_failure_toasts sampleUrlParses Unreachable
           (mkWorld typedStore [] [])); reflexivity.
Defined.

(** A 400 answer with a [null] body to a valid text input: one error
    toast, the handler's. *)
Example null_body_one_toast :
  List.filter isToastError
    (added typedWorld
       (handleSummarize sampleUrlParses
          (Answers 100 400 partialSummary NullData) typedWorld))
  = [ToastError (lit "Failed to generate summary. Please try again.")].
Proof. vm_compute. reflexivity. Qed.

(** X13: an empty custom prompt is never sent as an empty string: the
    JSON bodies carry [undefined] for it and the document form leaves the
    field out; a prompt that is set is sent as it is. *)
Theorem custom_prompt_sent_only_when_set (s : AppStore) (ep : Endpoint)
    (body : Body) :
  summarizeCall s = Some (ep, body) →
  (truthy (get (summarySettings s) "customPrompt") = false →
   ∀ v, ("custom_prompt", v) ∈ bodyFields body → v = VUndefined)
  ∧ (truthy (get (summarySettings s) "customPrompt") = true →
     ("custom_prompt", get (summarySettings s) "customPrompt")
       ∈ bodyFields body).
Proof.
  unfold summarizeCall, summarizeDocumentBody, settingsFields, documentOptions.
  intros Hcall.
  assert (Hopt : ∀ st : gmap string value,
            get (<["maxLength" := get st "maxLength"]>
                 (<["minLength" := get st "minLength"]>
                 (<["summaryType" := get st "summaryType"]>
                 (<["summaryStyle" := get st "summaryStyle"]>
                 (<["customPrompt" := or_else (get st "customPrompt") VUndefined]> ∅)))))
              "customPrompt"
            = or_else (get st "customPrompt") VUndefined).
  { intros st. unfold get at 1.
    do 4 (rewrite lookup_insert_ne by done). by rewrite lookup_insert_eq. }
  unfold or_else in *. split; intros Hp.
  - intros v Hv.
    destruct (activeTab s); try done; injection Hcall as <- <-;
      cbn [bodyFields] in Hv; rewrite ?Hopt, ?Hp in Hv; cbn [truthy app] in Hv;
      repeat (apply elem_of_cons in Hv as [Hv|Hv]; [by injection Hv|]);
      by apply elem_of_nil in Hv.
  - destruct (activeTab s); try done; injection Hcall as <- <-;
      cbn [bodyFields]; rewrite ?Hopt, ?Hp; cbn [app];
      repeat (first [apply list_elem_of_here | apply list_elem_of_further]).
Qed.

Lemma custom_prompt_unset_initially :
  (truthy (get (summarySettings typedStore) "customPrompt") = false →
   ∀ v, ("custom_prompt", v)
          ∈ bodyFields
              (JsonBody (("text", VStr (lit "hello world!"))
                         :: settingsFields initialSettings)) →
        v = VUndefined)
  ∧ (truthy (get (summarySettings typedStore) "customPrompt") = true →
     ("custom_prompt", get (summarySettings typedStore) "customPrompt")
       ∈ bodyFields
           (JsonBody (("text", VStr (lit "hello world!"))
                      :: settingsFields initialSettings))).
Proof.
  apply (custom_prompt_sent_only_when_set typedStore SummarizeText).
  reflexivity.
Defined.


(** X15: a call through the client shows nothing for a fulfilled
    request; for a rejected one the interceptor shows exactly one error
    toast and rejects with the same error, the toast being the detail for
    a 400 answer that has one; except for a 400 answer with a [null]
    body, where the interceptor throws at [data.detail]: no toast is
    shown and the call rejects with the thrown error. *)
Theorem interceptor_toasts {D} (e : Endpoint) (b : Body) (srv : Server D) :
  match adapter (req_config (request_of e b)) srv with
  | Resolved d => call e b srv = ([Sent (request_of e b)], Resolved d)
  | Rejected err =>
      if decide (response err = Some (400, NullData)) then
        call e b srv = ([Sent (request_of e b)], Rejected typeError)
      else
        ∃ msg,
          call e b srv
          = ([Sent (request_of e b); ToastError msg], Rejected err)
          ∧ (∀ d, response err = Some (400, DataWith (Some d)) →
                  d ≠ [] → msg = d)
  | Pending => False
  end.
Proof.
  assert (Hpos : 0 < timeout (req_config (request_of e b))).
  { rewrite ApiFacts.timeout_of_request. destruct e; lia. }
  pose proof (ApiFacts.adapter_settles _ srv Hpos) as Hs. unfold call.
  destruct (adapter (req_config (request_of e b)) srv) as [d|err|];
    [done| |done].
  destruct (ApiFacts.intercept_events (D:=D) err)
    as [(Hnull & Heq)|(msg & Hnot & Heq)].
  - rewrite decide_True by done. by rewrite Heq.
  - rewrite decide_False by done. exists msg. split; [by rewrite Heq|].
    intros d Hd Hne. unfold interceptResponse, interceptError in Heq.
    rewrite Hd in Heq. cbn in Heq. destruct d as [|c d]; [done|].
    cbn in Heq. by injection Heq as ->.
Qed.

End SummarizeFacts.

(** ** The file list *)

Module FileFacts.

Import FileInput.

Lemma keepFile_true (ok : File → bool) (f : File) :
  (keepFile ok f).1 = true ↔ ok f = true ∧ file_size f ≤ 10 * 1024 * 1024.
Proof.
  unfold keepFile, tooLarge. destruct (ok f); cbn [negb].
  - destruct (Z.ltb_spec (10 * 1024 * 1024) (file_size f)); cbn [fst]; split.
    + discriminate.
    + intros [_ ?]. lia.
    + intros _. split; [done|lia].
    + done.
  - cbn [fst]. split; [discriminate|]. intros [? _]. discriminate.
Qed.

Lemma keepFile_toasts (ok : File → bool) (f : File) :
  errorToasts (keepFile ok f).2 = if (keepFile ok f).1 then 0%nat else 1%nat.
Proof.
  unfold keepFile. destruct (negb (ok f)); [done|]. by destruct (tooLarge f).
Qed.

Lemma errorToasts_app (a b : list Event) :
  errorToasts (a ++ b) = (errorToasts a + errorToasts b)%nat.
Proof. unfold errorToasts. by rewrite List.filter_app, length_app. Qed.

Lemma refusals_count (ok : File → bool) (fs : list File) :
  (errorToasts (concat (map (λ f, (keepFile ok f).2) fs))
   + length (validFiles ok fs) = length fs)%nat.
Proof.
  induction fs as [|f fs IH]; [done|].
  cbn [map concat validFiles List.filter]. rewrite errorToasts_app.
  rewrite keepFile_toasts. unfold validFiles in IH.
  destruct ((keepFile ok f).1); cbn [length]; lia.
Qed.

Lemma rejections_count (fs : list File) :
  errorToasts
    (map (λ f, ToastError (file_name f ++ lit " is not a supported file type"))
       fs)
  = length fs.
Proof.
  unfold errorToasts. induction fs as [|f fs IH]; [done|].
  cbn [map List.filter isToastError length]. f_equal. exact IH.
Qed.

Lemma no_success_among_errors (es : list Event) :
  Forall (λ e, isToastError e = true) es → List.filter isToastSuccess es = [].
Proof. induction 1 as [|e es He _ IH]; [done|]. cbn. by destruct e. Qed.

Lemma rejections_are_errors (fs : list File) :
  Forall (λ e, isToastError e = true)
    (map (λ f, ToastError (file_name f ++ lit " is not a supported file type"))
       fs).
Proof. induction fs; by constructor. Qed.

Lemma refusals_are_errors (ok : File → bool) (fs : list File) :
  Forall (λ e, isToastError e = true)
    (concat (map (λ f, (keepFile ok f).2) fs)).
Proof.
  induction fs as [|f fs IH]; [constructor|].
  cbn [map concat]. apply Forall_app. split; [|exact IH].
  unfold keepFile. destruct (negb (ok f)); [by repeat constructor|].
  destruct (tooLarge f); by repeat constructor.
Qed.

(** X16: [onDrop] only ever appends to the file list, and only files of
    an accepted type that are no larger than 10 MiB, in the order they
    were dropped; every other dropped file gets one error toast; the
    success toast is shown exactly when a file was added. *)
Theorem onDrop_adds_valid_files (ok : File → bool)
    (acceptedFiles rejectedFiles : list File) (w : World) :
  let w' := onDrop ok acceptedFiles rejectedFiles w in
  let added := drop (length (log w)) (log w') in
  files (inputContent (store w'))
  = files (inputContent (store w)) ++ validFiles ok acceptedFiles
  ∧ (∀ f, f ∈ validFiles ok acceptedFiles
          ↔ f ∈ acceptedFiles ∧ ok f = true
            ∧ file_size f ≤ 10 * 1024 * 1024)
  ∧ (errorToasts added + length (validFiles ok acceptedFiles)
     = length rejectedFiles + length acceptedFiles)%nat
  ∧ length (List.filter isToastSuccess added)
    = (if decide (validFiles ok acceptedFiles = []) then 0 else 1)%nat.
Proof.
  cbn zeta. unfold onDrop.
  pose proof (refusals_count ok acceptedFiles) as Hcount.
  pose proof (rejections_count rejectedFiles) as Hrej.
  pose proof (no_success_among_errors _ (rejections_are_errors rejectedFiles))
    as Hs1.
  pose proof (no_success_among_errors _ (refusals_are_errors ok acceptedFiles))
    as Hs2.
  split; [|split; [|split]].
  - destruct (validFiles ok acceptedFiles) as [|f fs]; cbn; [|done].
    by rewrite app_nil_r.
  - intros f. unfold validFiles.
    rewrite list_elem_of_In, List.filter_In, <- list_elem_of_In.
    by rewrite keepFile_true.
  - destruct (validFiles ok acceptedFiles) as [|f fs] eqn:Hv;
      cbn [length Nat.ltb Nat.leb log]; rewrite drop_app_length;
      rewrite !errorToasts_app, Hrej; cbn [length] in *; [lia|].
    cbn. lia.
  - destruct (validFiles ok acceptedFiles) as [|f fs] eqn:Hv;
      cbn [length Nat.ltb Nat.leb log]; rewrite drop_app_length;
      rewrite !List.filter_app, Hs1, Hs2; [done|].
    by destruct (decide _).
Qed.

Lemma dropIndex_from (index i : nat) (fs : list File) :
  dropIndex index i fs
  = if decide (i ≤ index)%nat
    then take (index - i) fs ++ drop (S (index - i)) fs
    else fs.
Proof.
  revert i. induction fs as [|f fs IH]; intros i.
  { cbn. destruct (decide _); [|done]. by rewrite take_nil. }
  cbn [dropIndex]. rewrite IH.
  destruct (Nat.eqb_spec i index) as [->|Hne].
  - rewrite decide_False by lia. rewrite decide_True by lia.
    by rewrite Nat.sub_diag.
  - destruct (decide (i ≤ index)%nat).
    + rewrite decide_True by lia.
      replace (index - i)%nat with (S (index - S i)) by lia. done.
    + by rewrite decide_False by lia.
Qed.

(** X17: [removeFile] takes out the file at the index and keeps the
    others in order: the list loses one file when the index is in range
    and is unchanged when it is not; the log and every other part of the
    store (the other inputs, the results and histories, the question, the
    settings, the UI state) are as before. *)
Theorem removeFile_at_index (index : nat) (w : World) :
  let fs := files (inputContent (store w)) in
  let s' := store (removeFile index w) in
  let fs' := files (inputContent s') in
  fs' = take index fs ++ drop (S index) fs
  ∧ ((index < length fs)%nat → S (length fs') = length fs)
  ∧ ((length fs ≤ index)%nat → fs' = fs)
  ∧ (∀ i : nat, fs' !! i = if decide (i < index)%nat then fs !! i
                           else fs !! S i)
  ∧ log (removeFile index w) = log w
  ∧ text (inputContent s') = text (inputContent (store w))
  ∧ summaryResults s' = summaryResults (store w)
  ∧ url (inputContent s') = url (inputContent (store w))
  ∧ youtubeUrl (inputContent s') = youtubeUrl (inputContent (store w))
  ∧ isLoading s' = isLoading (store w)
  ∧ currentStep s' = currentStep (store w)
  ∧ activeTab s' = activeTab (store w)
  ∧ summaryHistory s' = summaryHistory (store w)
  ∧ qaHistory s' = qaHistory (store w)
  ∧ currentQuestion s' = currentQuestion (store w)
  ∧ summarySettings s' = summarySettings (store w).
Proof.
  cbn zeta. cbn [removeFile store log updateInputContent withInputContent
                 inputContent files text url youtubeUrl summaryResults
                 isLoading currentStep activeTab summaryHistory qaHistory
                 currentQuestion summarySettings].
  rewrite dropIndex_from, decide_True by lia. rewrite Nat.sub_0_r.
  set (fs := files (inputContent (store w))).
  split; [done|]. split; [|split; [|split]].
  - intros Hlt. rewrite length_app, length_take, length_drop. lia.
  - intros Hge. rewrite take_ge, drop_ge by lia. by rewrite app_nil_r.
  - intros i. destruct (decide (i < index)%nat) as [Hlt|Hge].
    + destruct (decide (index ≤ length fs)%nat).
      * rewrite lookup_app_l by (rewrite length_take; lia).
        by apply lookup_take_lt.
      * rewrite take_ge, drop_ge by lia. by rewrite app_nil_r.
    + destruct (decide (index ≤ length fs)%nat).
      * rewrite lookup_app_r by (rewrite length_take; lia).
        rewrite length_take, lookup_drop. f_equal. lia.
      * rewrite take_ge, drop_ge by lia. rewrite app_nil_r.
        rewrite !lookup_ge_None_2 by lia. done.
  - repeat split.
Qed.

(** X18: dropping one valid file and then removing the last entry of the
    list gives the file list back. *)
Theorem onDrop_then_removeFile (ok : File → bool) (f : File) (w : World) :
  ok f = true → file_size f ≤ 10 * 1024 * 1024 →
  files
    (inputContent
       (store
          (removeFile (length (files (inputContent (store w))))
             (onDrop ok [f] [] w))))
  = files (inputContent (store w)).
Proof.
  intros Hok Hsize.
  assert (Hkeep : validFiles ok [f] = [f]).
  { unfold validFiles. cbn.
    by rewrite (proj2 (keepFile_true ok f) (conj Hok Hsize)). }
  cbn [removeFile store updateInputContent withInputContent inputContent files].
  rewrite dropIndex_from, decide_True by lia. rewrite Nat.sub_0_r.
  unfold onDrop. rewrite Hkeep. cbn.
  rewrite take_app_length.
  rewrite drop_ge by (rewrite length_app; cbn; lia).
  by rewrite app_nil_r.
Qed.

Lemma onDrop_then_removeFile_sample :
  files
    (inputContent
       (store
          (removeFile
             (length
                (files (inputContent (store (mkWorld initialState [])))))
             (onDrop (λ _, true) [mkFile (lit "a.pdf") 2048] []
                (mkWorld initialState [])))))
  = files (inputContent (store (mkWorld initialState []))).
Proof.
  apply (onDrop_then_removeFile (λ _, true) (mkFile (lit "a.pdf") 2048)
           (mkWorld initialState [])).
  - reflexivity.
  - cbn. lia.
Defined.

End FileFacts.

(** ** The word count *)

Module TextFacts.

Import TextInput.

Lemma split_not_nil (sep : N) (s : jsstring) : split sep s ≠ [].
Proof.
  destruct s as [|c s]; [done|]. cbn.
  destruct (c =? sep)%N; [done|]. by destruct (split sep s).
Qed.

Lemma split_app (sep : N) (a b : jsstring) :
  split sep (a ++ sep :: b) = split sep a ++ split sep b.
Proof.
  induction a as [|c a IH]; cbn.
  - by rewrite N.eqb_refl.
  - destruct (c =? sep)%N; [by rewrite IH|].
    rewrite IH. pose proof (split_not_nil sep a).
    by destruct (split sep a).
Qed.

Lemma split_no_sep (sep : N) (s : jsstring) :
  sep ∉ s → split sep s = [s].
Proof.
  induction s as [|c s IH]; [done|].
  intros Hs. cbn. destruct (N.eqb_spec c sep) as [->|Hne].
  - exfalso. apply Hs, list_elem_of_here.
  - rewrite IH; [done|]. intros Hin. by apply Hs, list_elem_of_further.
Qed.

(** X19: the word count adds up over a space, and only spaces separate
    words: a text without a space counts as one word, or as none when it
    is empty, whatever other white space it has. *)
Theorem wordCount_spaces (a b : jsstring) :
  wordCount (a ++ 32%N :: b) = (wordCount a + wordCount b)%nat
  ∧ (32%N ∉ a → wordCount a = if decide (a = []) then 0%nat else 1%nat).
Proof.
  unfold wordCount. split.
  - by rewrite split_app, List.filter_app, length_app.
  - intros Ha. rewrite split_no_sep by done. by destruct a.
Qed.

Example words_on_two_lines :
  wordCount (lit "one two" ++ [10]%N ++ lit "three  four ") = 3%nat.
Proof. reflexivity. Qed.

End TextFacts.

(** ** The keyword cloud *)

Module KeywordFacts.

Import KeywordCloud.

Local Open Scope nat_scope.

Lemma groupSize_covers (total : nat) :
  0 < total → 0 < groupSize total ∧ total ≤ 5 * groupSize total.
Proof.
  intros Ht. unfold groupSize.
  pose proof (Nat.div_mod_eq (total + 4) 5) as Hdm.
  pose proof (Nat.mod_upper_bound (total + 4) 5). lia.
Qed.

(** X20: for a keyword at [index] in a list of [total] keywords both
    class lookups are in range, so a class name is always produced; the
    size class is the quotient of the index by the group size, which the
    cap at the last class never cuts, and it does not go back to a larger
    class further down the list. *)
Theorem getKeywordStyle_in_range (index total : nat) :
  index < total →
  is_Some (className index total)
  ∧ sizeIndex index total = index / groupSize total
  ∧ sizeIndex index total < length sizeClasses
  ∧ colorIndex index < length colorClasses
  ∧ (∀ j, j ≤ index → sizeIndex j total ≤ sizeIndex index total).
Proof.
  intros Hlt.
  destruct (groupSize_covers total) as [Hg Hcov]; [lia|].
  assert (Hq : index / groupSize total ≤ 4).
  { apply Nat.lt_succ_r, Nat.Div0.div_lt_upper_bound. lia. }
  assert (Hs : sizeIndex index total = index / groupSize total).
  { unfold sizeIndex. cbn [sizeClasses length]. lia. }
  assert (Hc : colorIndex index < 8).
  { unfold colorIndex. cbn [colorClasses length].
    apply Nat.mod_upper_bound. lia. }
  split; [|split; [done|split; [|split]]].
  - unfold className.
    destruct (lookup_lt_is_Some_2 sizeClasses (sizeIndex index total))
      as [sz ->]; [rewrite Hs; cbn [sizeClasses length]; lia|].
    destruct (lookup_lt_is_Some_2 colorClasses (colorIndex index))
      as [col ->]; [exact Hc|]. done.
  - rewrite Hs. cbn [sizeClasses length]. lia.
  - exact Hc.
  - intros j Hj. unfold sizeIndex.
    pose proof (Nat.Div0.div_le_mono j index (groupSize total) Hj). lia.
Qed.

Lemma getKeywordStyle_seventh_of_twelve :
  is_Some (className 6 12)
  ∧ sizeIndex 6 12 = 6 / groupSize 12
  ∧ sizeIndex 6 12 < length sizeClasses
  ∧ colorIndex 6 < length colorClasses
  ∧ (∀ j, j ≤ 6 → sizeIndex j 12 ≤ sizeIndex 6 12).
Proof. apply (getKeywordStyle_in_range 6 12). lia. Defined.

End KeywordFacts.

(** ** The video id *)

Module VideoIdFacts.

Import YoutubeInput.

Lemma id_run_parts (s : jsstring) :
  ∃ rest, s = id_run s ++ rest
          ∧ Forall (λ c, id_unit c = true) (id_run s)
          ∧ (∀ c, head rest = Some c → id_unit c = false).
Proof.
  induction s as [|c s (rest & Hs & Hall & Hrest)].
  { exists []. repeat split; [constructor|done]. }
  cbn [id_run]. destruct (id_unit c) eqn:Hc.
  - exists rest. split; [cbn; by f_equal|]. split; [by constructor|done].
  - exists (c :: s). split; [done|]. split; [constructor|].
    by intros d [= <-].
Qed.

Lemma id_run_full (v rest : jsstring) :
  Forall (λ c, id_unit c = true) v →
  (∀ c, head rest = Some c → id_unit c = false) →
  id_run (v ++ rest) = v.
Proof.
  intros Hv Hrest. induction Hv as [|c v Hc _ IH]; cbn.
  - destruct rest as [|d rest]; [done|]. cbn. by rewrite (Hrest d).
  - by rewrite Hc, IH.
Qed.

Lemma match_markers_Some (ms : list jsstring) (s v : jsstring) :
  match_markers ms s = Some v →
  ∃ m rest, m ∈ ms ∧ s = m ++ v ++ rest ∧ v ≠ []
            ∧ Forall (λ c, id_unit c = true) v
            ∧ (∀ c, head rest = Some c → id_unit c = false).
Proof.
  induction ms as [|m ms IH]; [done|]. cbn [match_markers].
  assert (Hnext : match_markers ms s = Some v →
                  ∃ m0 rest, m0 ∈ m :: ms ∧ s = m0 ++ v ++ rest ∧ v ≠ []
                    ∧ Forall (λ c, id_unit c = true) v
                    ∧ (∀ c, head rest = Some c → id_unit c = false)).
  { intros (m0 & rest & Hin & Hrest)%IH. exists m0, rest.
    split; [by apply list_elem_of_further|done]. }
  destruct (strip_prefix m s) as [[|c r]|] eqn:Hm; [done| |done].
  destruct (id_unit c) eqn:Hc; [|done].
  intros [= <-]. apply ValidationFacts.strip_prefix_Some in Hm.
  destruct (id_run_parts (c :: r)) as (rest & Hr & Hall & Hrest).
  exists m, rest. split; [apply list_elem_of_here|].
  split; [by rewrite Hm, Hr at 1|]. split; [|done].
  cbn [id_run]. by rewrite Hc.
Qed.

Lemma match_markers_None (ms : list jsstring) (s : jsstring) :
  match_markers ms s = None →
  ∀ m c r, m ∈ ms → id_unit c = true → s ≠ m ++ c :: r.
Proof.
  induction ms as [|m ms IH]; intros Hnone m0 c r Hin Hc Hs.
  { by apply elem_of_nil in Hin. }
  cbn [match_markers] in Hnone.
  apply elem_of_cons in Hin as [->|Hin].
  - apply ValidationFacts.strip_prefix_Some in Hs. rewrite Hs, Hc in Hnone.
    done.
  - destruct (strip_prefix m s) as [[|d r']|]; [by eapply IH| |by eapply IH].
    destruct (id_unit d); [done|by eapply IH].
Qed.

(** X21: a video id that [extractVideoId] returns stands in the URL
    right after one of the three markers, is not empty, has no ampersand,
    line feed, question mark or hash, and runs up to the first such unit
    or to the end; the result is null exactly when no marker of the URL is
    followed by a unit an id may have. *)
Theorem extractVideoId_spec (url : jsstring) :
  match extractVideoId url with
  | Some v =>
      ∃ pre m rest,
        url = pre ++ m ++ v ++ rest
        ∧ m ∈ idMarkers
        ∧ v ≠ []
        ∧ Forall (λ c, id_unit c = true) v
        ∧ (∀ c, head rest = Some c → id_unit c = false)
  | None =>
      ∀ pre m c rest,
        m ∈ idMarkers → id_unit c = true → url ≠ pre ++ m ++ c :: rest
  end.
Proof.
  induction url as [|x url IH]; cbn [extractVideoId].
  - destruct (match_markers idMarkers []) as [v|] eqn:Hm.
    + apply match_markers_Some in Hm as (m & rest & Hin & Hs & Hrest).
      by exists [], m, rest.
    + intros pre m c rest Hin Hc Hs.
      destruct pre as [|y pre]; [|done].
      by apply (match_markers_None _ _ Hm m c rest).
  - destruct (match_markers idMarkers (x :: url)) as [v|] eqn:Hm.
    + apply match_markers_Some in Hm as (m & rest & Hin & Hs & Hrest).
      by exists [], m, rest.
    + destruct (extractVideoId url) as [v|].
      * destruct IH as (pre & m & rest & -> & Hrest).
        by exists (x :: pre), m, rest.
      * intros pre m c rest Hin Hc Hs.
        destruct pre as [|y pre].
        -- by apply (match_markers_None _ _ Hm m c rest).
        -- injection Hs as -> ->. by apply (IH pre m c rest).
Qed.

Lemma strip_prefix_app (m s : jsstring) : strip_prefix m (m ++ s) = Some s.
Proof. by apply ValidationFacts.strip_prefix_Some. Qed.

(** Every marker starts with [y]. *)
Lemma no_marker_here (x : N) (url : jsstring) :
  x ≠ 121%N → match_markers idMarkers (x :: url) = None.
Proof.
  intros Hx. unfold idMarkers.
  change (lit "youtube.com/watch?v=") with (121%N :: lit "outube.com/watch?v=").
  change (lit "youtu.be/") with (121%N :: lit "outu.be/").
  change (lit "youtube.com/embed/") with (121%N :: lit "outube.com/embed/").
  cbn [match_markers strip_prefix].
  by destruct (N.eqb_spec 121 x) as [<-|_].
Qed.

Lemma extractVideoId_skip (pre url : jsstring) :
  Forall (λ x, x ≠ 121%N) pre →
  extractVideoId (pre ++ url) = extractVideoId url.
Proof.
  induction 1 as [|x pre Hx _ IH]; [done|].
  cbn [app extractVideoId]. by rewrite no_marker_here.
Qed.

Lemma extractVideoId_here (url v : jsstring) :
  match_markers idMarkers url = Some v → extractVideoId url = Some v.
Proof. intros Hm. destruct url; cbn [extractVideoId]; by rewrite Hm. Qed.

Lemma match_watch (c : N) (r : jsstring) :
  id_unit c = true →
  match_markers idMarkers (lit "youtube.com/watch?v=" ++ c :: r)
  = Some (id_run (c :: r)).
Proof.
  intros Hc. unfold idMarkers. cbn [match_markers].
  by rewrite strip_prefix_app, Hc.
Qed.

Lemma match_short (c : N) (r : jsstring) :
  id_unit c = true →
  match_markers idMarkers (lit "youtu.be/" ++ c :: r)
  = Some (id_run (c :: r)).
Proof.
  intros Hc. unfold idMarkers. cbn [match_markers].
  assert (Hfirst : strip_prefix (lit "youtube.com/watch?v=")
                     (lit "youtu.be/" ++ c :: r) = None).
  { change (lit "youtube.com/watch?v=")
      with ([121; 111; 117; 116; 117; 98]%N ++ lit "e.com/watch?v=").
    change (lit "youtu.be/") with ([121; 111; 117; 116; 117; 46]%N ++ lit "be/").
    reflexivity. }
  by rewrite Hfirst, strip_prefix_app, Hc.
Qed.

(** X22: from a watch URL and from a short URL the id is what follows
    [watch?v=] or [youtu.be/], up to the first ampersand, question mark,
    hash or line feed. *)
Theorem extractVideoId_standard (v rest : jsstring) :
  v ≠ [] →
  Forall (λ c, id_unit c = true) v →
  (∀ c, head rest = Some c → id_unit c = false) →
  extractVideoId (lit "https://www.youtube.com/watch?v=" ++ v ++ rest)
  = Some v
  ∧ extractVideoId (lit "https://youtu.be/" ++ v ++ rest) = Some v.
Proof.
  intros Hne Hv Hrest.
  pose proof (id_run_full v rest Hv Hrest) as Hrun.
  destruct v as [|c v]; [done|].
  assert (Hc : id_unit c = true) by (by inversion Hv).
  cbn [app] in Hrun. split.
  - change (lit "https://www.youtube.com/watch?v=")
      with (lit "https://www." ++ lit "youtube.com/watch?v=").
    rewrite <- app_assoc, extractVideoId_skip.
    + apply extractVideoId_here. cbn [app]. by rewrite match_watch, Hrun.
    + vm_compute. by repeat constructor.
  - change (lit "https://youtu.be/") with (lit "https://" ++ lit "youtu.be/").
    rewrite <- app_assoc, extractVideoId_skip.
    + apply extractVideoId_here. cbn [app]. by rewrite match_short, Hrun.
    + vm_compute. by repeat constructor.
Qed.

Lemma extractVideoId_watch_with_time :
  extractVideoId
    (lit "https://www.youtube.com/watch?v=" ++ lit "dQw4w9WgXcQ"
     ++ lit "&t=42s")
  = Some (lit "dQw4w9WgXcQ")
  ∧ extractVideoId
      (lit "https://youtu.be/" ++ lit "dQw4w9WgXcQ" ++ lit "&t=42s")
    = Some (lit "dQw4w9WgXcQ").
Proof.
  apply (extractVideoId_standard (lit "dQw4w9WgXcQ") (lit "&t=42s")).
  - discriminate.
  - repeat constructor.
  - intros c [= <-]. reflexivity.
Defined.

End VideoIdFacts.

(** ** The request window after additions *)

Module WindowFacts.

Lemma window_after_three_additions :
  QASection.conversationHistory
    (qaHistory
       (addAll initialState
          [sampleArgs;
           mkQAArgs (at_clock sampleArgs) (lit "q2") (lit "a2") 0.5%float None;
           mkQAArgs (at_clock sampleArgs) (lit "q3") (lit "a3") 0.5%float None]))
  = map (λ x, mkHistoryItem (arg_question x) (arg_answer x))
      (take 3
         (rev
            [sampleArgs;
             mkQAArgs (at_clock sampleArgs) (lit "q2") (lit "a2") 0.5%float None;
             mkQAArgs (at_clock sampleArgs) (lit "q3") (lit "a3") 0.5%float None])).
Proof.
  apply (QAFacts.conversationHistory_latest
           [sampleArgs;
            mkQAArgs (at_clock sampleArgs) (lit "q2") (lit "a2") 0.5%float None;
            mkQAArgs (at_clock sampleArgs) (lit "q3") (lit "a3") 0.5%float None]
           initialState).
  cbn. lia.
Defined.

End WindowFacts.
